(** * Leaderboard server (server.js): a shallow embedding and its properties

    The development follows the source file top-down:

    - [Js]      the JavaScript values the handlers touch: strings as
                sequences of UTF-16 code units, numbers, JSON values,
                and the built-in coercions ([Number], [trim], [slice],
                [Array.prototype.sort]) the handlers call;
    - [Disk]    [leaderboard.json] and the two functions that own it,
                [loadLeaderboard] and [saveLeaderboard];
    - [Server]  the two leaderboard routes, [GET /api/leaderboard] and
                [POST /api/leaderboard], and the run-to-completion
                processing of a sequence of requests;
    - the notions the properties are stated with (the collection
      invariants, sample requests), then the properties, one part per
      subject.

    Numbers.  A JavaScript number is an IEEE-754 binary64.  The model keeps
    [NaN] and the two infinities and takes the finite numbers as exact
    rationals; a magnitude too large for binary64 becomes an infinity, the
    rounding of the mantissa is not modelled.  All integers the handlers
    store (money up to 5 * 10^9, millisecond clocks, rebirth counts) are
    far below 2^53 and exact in both. *)

From Stdlib Require Import List ZArith NArith QArith Qround Qminmax Bool Lia
  Ascii String DecimalString Permutation Sorted.
Import ListNotations.

Set Implicit Arguments.
#[local] Set Warnings "-register-all".
Local Close Scope Q_scope.
Local Open Scope Z_scope.

(* ===================================================================== *)
(** * JavaScript values and built-ins *)
(* ===================================================================== *)

Module Js.

(** ** Strings *)

(** A string is its sequence of UTF-16 code units: [length], [slice] and
    [===] all work on code units. *)
Definition jstring := list N.

(** An ASCII literal as a [jstring]. *)
Definition lit (s : string) : jstring :=
  map N_of_ascii (list_ascii_of_string s).

(** [a === b] on strings. *)
Fixpoint str_eqb (a b : jstring) : bool :=
  match a, b with
  | [], [] => true
  | x :: a', y :: b' => (x =? y)%N && str_eqb a' b'
  | _, _ => false
  end.

(** WhiteSpace and LineTerminator code points, the ones [trim] strips and
    [Number] skips around a numeric literal. *)
Definition isWhiteSpace (c : N) : bool :=
  ((9 <=? c) && (c <=? 13) || (c =? 32) || (c =? 160) || (c =? 5760)
   || (8192 <=? c) && (c <=? 8202) || (c =? 8232) || (c =? 8233)
   || (c =? 8239) || (c =? 8287) || (c =? 12288) || (c =? 65279))%N.

Fixpoint trimStart (s : jstring) : jstring :=
  match s with
  | c :: r => if isWhiteSpace c then trimStart r else s
  | [] => []
  end.

Definition trimEnd (s : jstring) : jstring := rev (trimStart (rev s)).

(** [s.trim()] *)
Definition trim (s : jstring) : jstring := trimEnd (trimStart s).

(** [s.slice(0, n)] and [a.slice(0, n)] for [n >= 0]. *)
Definition slice0 {A} (n : nat) (l : list A) : list A := firstn n l.

(** ** Numbers *)

Inductive number :=
| NaN
| PosInf
| NegInf
| Fin (q : Q).

(** Largest magnitude that does not round to an infinity is below
    [2^1024 - 2^970]. *)
Definition overflow_bound : Q := inject_Z (2 ^ 1024 - 2 ^ 970).

Definition Qltb (x y : Q) : bool :=
  match (x ?= y)%Q with Lt => true | _ => false end.

Definition of_rational (q : Q) : number :=
  if Qle_bool overflow_bound q then PosInf
  else if Qle_bool q (- overflow_bound)%Q then NegInf
  else Fin q.

(** [Number.isFinite(x)] *)
Definition isFinite (x : number) : bool :=
  match x with Fin _ => true | _ => false end.

(** [Number.isInteger(x)] *)
Definition isInteger (x : number) : bool :=
  match x with
  | Fin q => Qeq_bool (inject_Z (Qfloor q)) q
  | _ => false
  end.

(** [x < y]: false as soon as one side is [NaN]. *)
Definition lt (x y : number) : bool :=
  match x, y with
  | NaN, _ | _, NaN => false
  | _, NegInf => false
  | NegInf, _ => true
  | PosInf, _ => false
  | Fin _, PosInf => true
  | Fin a, Fin b => Qltb a b
  end.

(** [x > y] *)
Definition gt (x y : number) : bool := lt y x.

(** Truthiness of a number: [NaN], [+0] and [-0] are falsy. *)
Definition truthy_number (x : number) : bool :=
  match x with
  | NaN => false
  | Fin q => negb (Qeq_bool q 0)
  | _ => true
  end.

(** ** Numeric literals in strings: [Number(s)] for a string [s] *)

Definition digit_of (base : Z) (c : N) : option Z :=
  let d :=
    if ((48 <=? c) && (c <=? 57))%N then Z.of_N c - 48
    else if ((97 <=? c) && (c <=? 102))%N then Z.of_N c - 87
    else if ((65 <=? c) && (c <=? 70))%N then Z.of_N c - 55
    else base in
  if d <? base then Some d else None.

(** The longest prefix of digits, as digit values, and what follows it. *)
Fixpoint take_digits (base : Z) (s : jstring) : list Z * jstring :=
  match s with
  | c :: r =>
      match digit_of base c with
      | Some d => let (ds, r') := take_digits base r in (d :: ds, r')
      | None => ([], s)
      end
  | [] => ([], [])
  end.

Definition digits_value (base : Z) (ds : list Z) : Z :=
  fold_left (fun acc d => acc * base + d) ds 0.

(** [0x..], [0o..], [0b..]: the whole rest must be digits of the base. *)
Definition radix_literal (base : Z) (s : jstring) : number :=
  match take_digits base s with
  | ((_ :: _) as ds, []) => of_rational (inject_Z (digits_value base ds))
  | _ => NaN
  end.

(** ExponentPart: [e] or [E], an optional sign, at least one digit; the
    literal ends there. *)
Definition exponent_part (s : jstring) : option Z :=
  match s with
  | [] => Some 0
  | c :: r =>
      if ((c =? 101) || (c =? 69))%N then
        let '(neg, r1) :=
          match r with
          | 43%N :: r1 => (false, r1)
          | 45%N :: r1 => (true, r1)
          | _ => (false, r)
          end in
        match take_digits 10 r1 with
        | ((_ :: _) as ds, []) =>
            Some (if neg : bool then - digits_value 10 ds else digits_value 10 ds)
        | _ => None
        end
      else None
  end.

(** StrUnsignedDecimalLiteral other than [Infinity]: digits, an optional
    fraction, an optional exponent, with a digit on at least one side of
    the point. *)
Definition unsigned_decimal (s : jstring) : option Q :=
  let (ip, r) := take_digits 10 s in
  let '(fp, r1) :=
    match r with
    | 46%N :: r0 => take_digits 10 r0
    | _ => ([], r)
    end in
  match ip, fp with
  | [], [] => None
  | _, _ =>
      match exponent_part r1 with
      | Some e =>
          let mant := digits_value 10 (ip ++ fp) in
          Some (inject_Z mant * inject_Z 10 ^ (e - Z.of_nat (List.length fp)))%Q
      | None => None
      end
  end.

Definition signed_decimal (s : jstring) : number :=
  let '(neg, r) :=
    match s with
    | 43%N :: r => (false, r)
    | 45%N :: r => (true, r)
    | _ => (false, s)
    end in
  if str_eqb r (lit "Infinity") then (if neg : bool then NegInf else PosInf)
  else
    match unsigned_decimal r with
    | Some q => of_rational (if neg : bool then (- q)%Q else q)
    | None => NaN
    end.

(** StringToNumber: surrounding white space is skipped, the empty string
    is [0], anything that is not a numeric literal is [NaN]. *)
Definition StringToNumber (s : jstring) : number :=
  match trim s with
  | [] => Fin 0
  | 48%N :: c :: r =>
      if ((c =? 120) || (c =? 88))%N then radix_literal 16 r
      else if ((c =? 111) || (c =? 79))%N then radix_literal 8 r
      else if ((c =? 98) || (c =? 66))%N then radix_literal 2 r
      else signed_decimal (trim s)
  | t => signed_decimal t
  end.

(** ** Values *)

(** What a request body or the leaderboard file can hold: [JSON.parse]
    yields [null], booleans, numbers, strings, arrays and objects (own
    properties in order); [VUndef] is an absent property. *)
Inductive value :=
| VUndef
| VNull
| VBool (b : bool)
| VNum (n : number)
| VStr (s : jstring)
| VArr (l : list value)
| VObj (o : list (jstring * value)).

Definition object := list (jstring * value).

(** [o.k] on a plain object: the own property, or [undefined]. *)
Fixpoint get (k : jstring) (o : object) : value :=
  match o with
  | (k', v) :: r => if str_eqb k' k then v else get k r
  | [] => VUndef
  end.

Definition has_key (k : jstring) (o : object) : bool :=
  existsb (fun kv => str_eqb (fst kv) k) o.

(** Truthiness ([!v] is its negation). *)
Definition truthy (v : value) : bool :=
  match v with
  | VUndef | VNull => false
  | VBool b => b
  | VNum n => truthy_number n
  | VStr s => match s with [] => false | _ => true end
  | VArr _ | VObj _ => true
  end.

(** [typeof v === 'string'] *)
Definition is_string (v : value) : bool :=
  match v with VStr _ => true | _ => false end.

(** ** Exceptions *)

Inductive exn := ENOENT | SyntaxError | TypeError.

Inductive result (A : Type) :=
| Ok (a : A)
| Throw (e : exn).
Arguments Ok {A} a.
Arguments Throw {A} e.

Definition bind {A B} (r : result A) (k : A -> result B) : result B :=
  match r with Ok a => k a | Throw e => Throw e end.

(** [try { body } catch { handler }] *)
Definition try_catch {A} (body : result A) (handler : A) : A :=
  match body with Ok a => a | Throw _ => handler end.

(** ** [Number(v)] *)

(** Converting an object to a primitive calls its [toString]; a parsed
    JSON object that has an own [toString] property shadows the inherited
    method with a value that cannot be called, and the conversion throws
    a TypeError.  An array converts through [join], which converts its
    elements. *)
Fixpoint to_primitive_throws (v : value) : bool :=
  match v with
  | VObj o => has_key (lit "toString") o
  | VArr l => existsb to_primitive_throws l
  | _ => false
  end.

(** [Number(String(v))] for [v] the only element of an array: [join] turns
    [null] and [undefined] into the empty string; a number prints to a
    literal that reads back as itself; a plain object prints as
    [[object Object]]; two or more elements are joined with a comma, which
    no numeric literal contains. *)
Fixpoint joined_number (v : value) : number :=
  match v with
  | VUndef | VNull => Fin 0
  | VBool _ => NaN
  | VNum n => n
  | VStr s => StringToNumber s
  | VArr [] => Fin 0
  | VArr [x] => joined_number x
  | VArr _ => NaN
  | VObj _ => NaN
  end.

Definition to_number (v : value) : number :=
  match v with
  | VUndef => NaN
  | VNull => Fin 0
  | VBool b => if b then Fin 1 else Fin 0
  | VNum n => n
  | VStr s => StringToNumber s
  | VArr _ | VObj _ => joined_number v
  end.

(** [Number(v)] *)
Definition Number (v : value) : result number :=
  if to_primitive_throws v then Throw TypeError else Ok (to_number v).

(** ** [Array.prototype.sort] with a comparator *)

(** The comparator returns a number whose sign orders its arguments.  The
    sort is stable; for a consistent comparator its result is the one
    stable ordering of the input, computed here by insertion. *)
Section Sort.
Variable A : Type.
Variable compareFn : A -> A -> Z.

Fixpoint insert (x : A) (l : list A) : list A :=
  match l with
  | [] => [x]
  | y :: r => if compareFn x y <=? 0 then x :: l else y :: insert x r
  end.

Fixpoint sort (l : list A) : list A :=
  match l with
  | [] => []
  | x :: r => insert x (sort r)
  end.

(** [before a b]: the comparator lets [a] stand in front of [b]. *)
Definition before (a b : A) : Prop := compareFn a b <= 0.
End Sort.

(** [a.findIndex(p)]: the first index whose element satisfies [p];
    [None] stands for [-1]. *)
Fixpoint findIndex {A} (p : A -> bool) (l : list A) : option nat :=
  match l with
  | [] => None
  | x :: r => if p x then Some O else option_map S (findIndex p r)
  end.

(** [a[i] = x] for an index inside the array. *)
Fixpoint assign {A} (i : nat) (x : A) (l : list A) : list A :=
  match l, i with
  | [], _ => []
  | _ :: r, O => x :: r
  | y :: r, S j => y :: assign j x r
  end.

End Js.

(* ===================================================================== *)
(** * leaderboard.json *)
(* ===================================================================== *)

Module Disk.
Import Js.

(** The text of a file either is the JSON serialisation of a value or is
    text [JSON.parse] rejects (the empty text, a cut-off document, ...). *)
Inductive text :=
| Malformed
| Serialized (v : value).

(** [leaderboard.json]: absent, or present with some text. *)
Definition file := option text.

(** [fs.readFileSync(DB_PATH, 'utf8')] *)
Definition readFileSync (f : file) : result text :=
  match f with
  | Some t => Ok t
  | None => Throw ENOENT
  end.

(** [JSON.parse(raw)] *)
Definition JSON_parse (raw : text) : result value :=
  match raw with
  | Serialized v => Ok v
  | Malformed => Throw SyntaxError
  end.

(** What [JSON.stringify] keeps of a value: a number that is not finite
    and an [undefined] array element are written as [null], an
    [undefined] property is left out. *)
Fixpoint stringified (v : value) : value :=
  match v with
  | VUndef => VNull
  | VNum n => if isFinite n then v else VNull
  | VArr l => VArr (map stringified l)
  | VObj o =>
      VObj ((fix props (o : list (jstring * value)) :=
               match o with
               | [] => []
               | (k, VUndef) :: r => props r
               | (k, x) :: r => (k, stringified x) :: props r
               end) o)
  | _ => v
  end.

(** [JSON.stringify(data, null, 2)] for an array [data] of objects. *)
Definition JSON_stringify (data : list object) : text :=
  Serialized (stringified (VArr (map VObj data))).

(** [item.k] for a key [k] that is neither an array index nor the name of
    a built-in property: reading a property of [null] or [undefined]
    throws, a plain object answers with its own property, every other
    value with [undefined]. *)
Definition member (item : value) (k : jstring) : result value :=
  match item with
  | VUndef | VNull => Throw TypeError
  | VObj o => Ok (get k o)
  | _ => Ok VUndef
  end.

Definition index_key (i : nat) : jstring :=
  lit (DecimalString.NilEmpty.string_of_uint (Nat.to_uint i)).

Fixpoint indexed {A} (f : A -> value) (i : nat) (l : list A) : object :=
  match l with
  | [] => []
  | x :: r => (index_key i, f x) :: indexed f (S i) r
  end.

(** The own enumerable properties [{...item}] copies: those of an object,
    the elements of an array and the characters of a string under their
    indices, none for any other value. *)
Definition spread (item : value) : object :=
  match item with
  | VObj o => o
  | VArr l => indexed (fun x => x) 0 l
  | VStr s => indexed (fun c => VStr [c]) 0 s
  | _ => []
  end.

(** [{...o, k: v}]: an existing property keeps its place and takes the new
    value, a new one is added last. *)
Fixpoint set_key (k : jstring) (v : value) (o : object) : object :=
  match o with
  | [] => [(k, v)]
  | (k', v') :: r => if str_eqb k' k then (k', v) :: r else (k', v') :: set_key k v r
  end.

(** [a.map(f)] for a callback that may throw. *)
Fixpoint map_result {A B} (f : A -> result B) (l : list A) : result (list B) :=
  match l with
  | [] => Ok []
  | x :: r => bind (f x) (fun y => bind (map_result f r) (fun ys => Ok (y :: ys)))
  end.

Definition is_undefined (v : value) : bool :=
  match v with VUndef => true | _ => false end.

(** The callback of [board.map] in [loadLeaderboard]:
    [item => ({ ...item, rebirth: item.rebirth !== undefined ? item.rebirth : 0 })] *)
Definition with_rebirth (item : value) : result object :=
  let copied := spread item in
  bind (member item (lit "rebirth")) (fun r =>
  Ok (set_key (lit "rebirth") (if negb (is_undefined r) then r else VNum (Fin 0)) copied)).

(** The body of the [try] block of [loadLeaderboard]. *)
Definition loadLeaderboard_try (f : file) : result (list object) :=
  bind (readFileSync f) (fun raw =>
  bind (JSON_parse raw) (fun parsed =>
  let board := match parsed with VArr l => l | _ => [] end in
  bind (map_result with_rebirth board) (fun board =>
  Ok board))).

(** [loadLeaderboard()]: [try { ... return board; } catch { return []; }] *)
Definition loadLeaderboard (f : file) : list object :=
  try_catch (loadLeaderboard_try f) [].

(** [fs.writeFileSync(DB_PATH, text, 'utf8')] opens the file with flag
    ['w'], which truncates it, and then writes the text.  The list is what
    the file holds from the call on, in order: first the truncated or
    partly written text, which is no JSON document, at the end the whole
    text. *)
Definition writeFileSync_states (t : text) : list file :=
  [Some Malformed; Some t].

(** [saveLeaderboard(data)]: the file once [writeFileSync] has returned. *)
Definition saveLeaderboard (data : list object) : file :=
  Some (JSON_stringify data).

(** The states of the file while [saveLeaderboard(data)] runs. *)
Definition saveLeaderboard_states (data : list object) : list file :=
  writeFileSync_states (JSON_stringify data).

End Disk.

(* ===================================================================== *)
(** * The leaderboard routes *)
(* ===================================================================== *)

Module Server.
Import Js Disk.

(** ** Entries *)

(** The object the POST route builds and stores:
    [{ name: cleanName, money: Math.floor(safeMoney), rebirth: safeRebirth,
       updatedAt: Date.now() }].  [money] and [rebirth] are integers by
    then, [updatedAt] is a clock reading in milliseconds. *)
Record Entry := {
  name : jstring;
  money : Z;
  rebirth : Z;
  updatedAt : Z
}.

Definition int (z : Z) : value := VNum (Fin (inject_Z z)).

(** The entry as the JavaScript object it is, properties in the order of
    the object literal. *)
Definition to_object (e : Entry) : object :=
  [ (lit "name", VStr e.(name));
    (lit "money", int e.(money));
    (lit "rebirth", int e.(rebirth));
    (lit "updatedAt", int e.(updatedAt)) ].

(** Reading an object back as an entry; [None] for an object of any other
    shape. *)
Definition of_object (o : object) : option Entry :=
  match o with
  | [ (k1, VStr n); (k2, VNum (Fin (Qmake m 1)));
      (k3, VNum (Fin (Qmake r 1))); (k4, VNum (Fin (Qmake u 1))) ] =>
      if str_eqb k1 (lit "name") && str_eqb k2 (lit "money")
         && str_eqb k3 (lit "rebirth") && str_eqb k4 (lit "updatedAt")
      then Some {| name := n; money := m; rebirth := r; updatedAt := u |}
      else None
  | _ => None
  end.

Fixpoint of_objects (l : list object) : option (list Entry) :=
  match l with
  | [] => Some []
  | o :: r =>
      match of_object o, of_objects r with
      | Some e, Some es => Some (e :: es)
      | _, _ => None
      end
  end.

(** ** Responses *)

(** The [message] of an error response. *)
Inductive message :=
| NameRequired        (* "enter a name" *)
| InvalidScore        (* "the score is not valid" *)
| AbnormalValue       (* "abnormal value" *)
| InvalidRebirth      (* "the rebirth information is not valid" *)
| TooFrequent         (* "cannot submit this often" *)
| AbnormalIncrease.   (* "abnormal increase" *)

Inductive response :=
| Rejected (status : Z) (m : message)   (* res.status(status).json({ message }) *)
| OkTrue                                (* res.json({ ok: true }) *)
| Listing (l : list Entry)              (* res.json(leaderboard) *)
| Uncaught (e : exn).                   (* an exception left the handler: 500 *)

(** ** A handler that may [return] early *)

Inductive flow (A : Type) :=
| Next (a : A)
| Return (r : response).
Arguments Next {A} a.
Arguments Return {A} r.

Definition and_then {A B} (c : flow A) (k : A -> flow B) : flow B :=
  match c with Next a => k a | Return r => Return r end.

Notation "x <- c ;; k" := (and_then c (fun x => k))
  (at level 61, c at next level, right associativity).
Notation "c ;; k" := (and_then c (fun _ => k))
  (at level 61, right associativity).

(** [if (b) return r;] *)
Definition return_if (b : bool) (r : response) : flow unit :=
  if b then Return r else Next tt.

(** A call that may throw. *)
Definition call {A} (c : result A) : flow A :=
  match c with Ok a => Next a | Throw e => Return (Uncaught e) end.

(** ** POST /api/leaderboard *)

(** The fields [const { name, money, rebirth } = req.body || {}] reads;
    a field the body does not have is [VUndef]. *)
Record body := {
  body_name : value;
  body_money : value;
  body_rebirth : value
}.

Definition string_of (v : value) : jstring :=
  match v with VStr s => s | _ => [] end.

(** [Math.floor(x)] of a finite number, as an integer. *)
Definition Math_floor (x : number) : Z :=
  match x with Fin q => Qfloor q | _ => 0 end.

(** An integral number as an integer. *)
Definition integer_of (x : number) : Z := Math_floor x.

(** Lines 92-119: the checks on the body, then the new entry. *)
Definition build_entry (now : Z) (b : body) : flow Entry :=
  let name := b.(body_name) in
  return_if (negb (truthy name) || negb (is_string name)
             || negb (truthy (VStr (trim (string_of name)))))
            (Rejected 400 NameRequired) ;;
  safeMoney <- call (Number b.(body_money)) ;;
  return_if (negb (isFinite safeMoney) || lt safeMoney (Fin 0))
            (Rejected 400 InvalidScore) ;;
  return_if (gt safeMoney (Fin 5000000000))
            (Rejected 400 AbnormalValue) ;;
  n <- call (Number b.(body_rebirth)) ;;
  let safeRebirth := if truthy_number n then n else Fin 0 in
  return_if (negb (isInteger safeRebirth) || lt safeRebirth (Fin 0))
            (Rejected 400 InvalidRebirth) ;;
  let cleanName := slice0 40 (trim (string_of name)) in
  Next {| name := cleanName;
          money := Math_floor safeMoney;
          rebirth := integer_of safeRebirth;
          updatedAt := now |}.

(** The comparator of the POST route: rebirth first, money on a tie. *)
Definition by_rebirth_then_money (a b : Entry) : Z :=
  if negb (b.(rebirth) =? a.(rebirth)) then b.(rebirth) - a.(rebirth)
  else b.(money) - a.(money).

(** The comparator of the GET route. *)
Definition by_money (a b : Entry) : Z := b.(money) - a.(money).

(** Lines 151-160: sort, keep the first 100, save, answer.  The second
    component is the argument of [saveLeaderboard]. *)
Definition sort_and_save (leaderboard : list Entry)
  : response * option (list Entry) :=
  let sorted := slice0 100 (sort by_rebirth_then_money leaderboard) in
  (OkTrue, Some sorted).

(** Lines 121-160, for the entry built from the body and the result
    [leaderboard] of [loadLeaderboard()].  The second component is [None]
    when [saveLeaderboard] is not called. *)
Definition merge_entry (entry : Entry) (leaderboard : list Entry)
  : response * option (list Entry) :=
  match findIndex (fun item => str_eqb item.(name) entry.(name)) leaderboard with
  | Some existingIndex =>
      let previousEntry := nth existingIndex leaderboard entry in
      let timeDiffSeconds :=
        (inject_Z (entry.(updatedAt) - previousEntry.(updatedAt)) / 1000)%Q in
      if Qltb timeDiffSeconds 5%Q then (Rejected 429 TooFrequent, None)
      else
        let maxReasonableIncrease := (150000 * Qmin timeDiffSeconds 3600)%Q in
        let actualIncrease := entry.(money) - previousEntry.(money) in
        if Qltb (maxReasonableIncrease * 1.5)%Q (inject_Z actualIncrease)
           && (actualIncrease >? 100000000)
        then (Rejected 400 AbnormalIncrease, None)
        else
          sort_and_save
            (if (entry.(money) >? previousEntry.(money))
                || (entry.(rebirth) >? previousEntry.(rebirth))
             then assign existingIndex entry leaderboard
             else leaderboard)
  | None => sort_and_save (leaderboard ++ [entry])
  end.

(** The POST handler at time [now = Date.now()], given what
    [loadLeaderboard()] returns. *)
Definition post_leaderboard (now : Z) (b : body) (leaderboard : list Entry)
  : response * option (list Entry) :=
  match build_entry now b with
  | Return r => (r, None)
  | Next entry => merge_entry entry leaderboard
  end.

(** ** GET /api/leaderboard *)

(** [loadLeaderboard().sort((a, b) => b.money - a.money).slice(0, 10)] *)
Definition get_leaderboard (leaderboard : list Entry) : response :=
  Listing (slice0 10 (sort by_money leaderboard)).

(** ** The routes on the file *)

(** The file [saveLeaderboard] leaves for a list of entries. *)
Definition stored (l : list Entry) : file :=
  saveLeaderboard (map to_object l).

(** The handler against the file: [None] when the file holds objects that
    are not entries, which the handlers above do not cover. *)
Definition post_on_file (now : Z) (b : body) (f : file)
  : option (response * file) :=
  match build_entry now b with
  | Return r => Some (r, f)
  | Next entry =>
      match of_objects (loadLeaderboard f) with
      | None => None
      | Some leaderboard =>
          match merge_entry entry leaderboard with
          | (r, Some sorted) => Some (r, stored sorted)
          | (r, None) => Some (r, f)
          end
      end
  end.

(** ** Processing requests one after the other *)

(** No handler of the file awaits anything: file access is synchronous,
    so a handler, once started, runs to its response before the event
    loop starts the next one.  Requests that are in flight together are
    therefore handled one at a time, in some order, each at its own
    reading of the clock. *)
Definition persisted_after (store : list Entry) (rq : Z * body) : list Entry :=
  match snd (post_leaderboard (fst rq) (snd rq) store) with
  | Some sorted => sorted
  | None => store
  end.

Definition process (store : list Entry) (requests : list (Z * body)) : list Entry :=
  fold_left persisted_after requests store.

End Server.

(* ===================================================================== *)
(** * Notions the properties are stated with *)
(* ===================================================================== *)

Import Js Disk Server.

(** ** The collection and its invariants *)

(** The names of a collection, in order. *)
Definition names (l : list Entry) : list jstring := map name l.

(** [ranks_below a b]: [a] has the lower rebirth count or, at equal
    rebirth counts, the lower money. *)
Definition ranks_below (a b : Entry) : Prop :=
  rebirth a < rebirth b \/ (rebirth a = rebirth b /\ money a < money b).

(** No entry ranks below its successor. *)
Definition ranked (l : list Entry) : Prop :=
  Sorted (fun a b => ~ ranks_below a b) l.

(** The three invariants of the persisted collection. *)
Definition collection_ok (l : list Entry) : Prop :=
  NoDup (names l) /\ (List.length l <= 100)%nat /\ ranked l.

(** The entries stored under a name. *)
Definition named (n : jstring) (l : list Entry) : list Entry :=
  filter (fun item => str_eqb (name item) n) l.

(** The array the POST handler sorts: [leaderboard] after the push or the
    index assignment, if any. *)
Inductive merged (entry : Entry) (leaderboard : list Entry)
  : list Entry -> Prop :=
| merged_push :
    findIndex (fun item => str_eqb (name item) (name entry)) leaderboard = None ->
    merged entry leaderboard (leaderboard ++ [entry])
| merged_assign i :
    findIndex (fun item => str_eqb (name item) (name entry)) leaderboard = Some i ->
    merged entry leaderboard (assign i entry leaderboard)
| merged_keep i :
    findIndex (fun item => str_eqb (name item) (name entry)) leaderboard = Some i ->
    merged entry leaderboard leaderboard.

(** ** The checks on the body *)

(** [Number(rebirth) || 0] *)
Definition or_zero (n : number) : number :=
  if truthy_number n then n else Fin 0.

(** [name.trim().slice(0, 40)] *)
Definition cleanName (raw : jstring) : jstring := slice0 40 (trim raw).



(** ** Loading *)

(** What loading does to an object of the array. *)
Definition loaded_object (o : object) : object :=
  if is_undefined (get (lit "rebirth") o)
  then set_key (lit "rebirth") (VNum (Fin 0)) o
  else o.

(** ** The top of the ranking *)

(** The first [k] entries of the persisted collection, in the order it
    is persisted in: what a top-[k] query is to return. *)
Definition first_of_ranking (k : nat) (persisted : list Entry) : list Entry :=
  firstn (Nat.min k (List.length persisted)) persisted.

(** ** Sample requests and collections *)

(** A body with a name, a money and a rebirth count, as a client sends
    it. *)
Definition submission (n : string) (m r : Z) : body :=
  {| body_name := VStr (lit n); body_money := int m; body_rebirth := int r |}.

(** Two stored entries, both written at clock reading 0. *)
Definition alice_at_0 : Entry :=
  {| name := lit "alice"; money := 1000; rebirth := 0; updatedAt := 0 |}.

Definition bob_at_0 : Entry :=
  {| name := lit "bob"; money := 50; rebirth := 2; updatedAt := 0 |}.

(** A hundred players submit once each, all at rebirth count 1; the
    collection they leave is full. *)
Definition hundred_players : list (Z * body) :=
  map (fun i => (0, {| body_name := VStr (lit "player" ++ index_key i);
                       body_money := int 1000;
                       body_rebirth := int 1 |}))
      (seq 0 100).

Definition full_collection : list Entry := process [] hundred_players.

(* ===================================================================== *)
(** * Printing: [String(v)] *)
(* ===================================================================== *)

Module JsString.
Import Js.

(** The decimal digits of a natural number. *)
Definition digits (n : Z) : jstring :=
  lit (NilEmpty.string_of_uint (N.to_uint (Z.to_N n))).

(** The least [e] from [e0] on with [a * 10^(e - e0)] a multiple of [b],
    and the quotient; the search stops when [fuel] runs out. *)
Fixpoint scale (fuel : nat) (a b e : Z) : Z * Z :=
  match fuel with
  | O => (a / b, e)
  | S f => if a mod b =? 0 then (a / b, e) else scale f (a * 10) b (e + 1)
  end.

(** [s] without its trailing zeros, and how many there were. *)
Fixpoint strip_zeros (fuel : nat) (s z : Z) : Z * Z :=
  match fuel with
  | O => (s, z)
  | S f => if s mod 10 =? 0 then strip_zeros f (s / 10) (z + 1) else (s, z)
  end.

Definition zeros (n : Z) : jstring := repeat 48%N (Z.to_nat n).

(** Number::toString of a positive rational: with [s] its [k] significant
    digits and [n] the position of the point after them, plain digits when
    [k <= n <= 21], digits around a point when [0 < n <= 21], leading
    zeros when [-6 < n <= 0], exponent notation otherwise.  A rational
    whose expansion does not end is no JavaScript number; its expansion
    is cut. *)
Definition positive_to_string (q : Q) : jstring :=
  let a := Qnum (Qred q) in
  let b := Zpos (Qden (Qred q)) in
  let (S0, e) := scale (Pos.size_nat (Qden (Qred q))) a b 0 in
  let (s, z) := strip_zeros (List.length (digits S0)) S0 0 in
  let ds := digits s in
  let k := Z.of_nat (List.length ds) in
  let n := k + z - e in
  if (k <=? n) && (n <=? 21) then ds ++ zeros (n - k)
  else if (0 <? n) && (n <=? 21)
       then firstn (Z.to_nat n) ds ++ [46%N] ++ skipn (Z.to_nat n) ds
  else if (-6 <? n) && (n <=? 0) then [48%N; 46%N] ++ zeros (- n) ++ ds
  else
    let exponent :=
      [101%N] ++ (if n - 1 <? 0 then [45%N] else [43%N])
      ++ digits (Z.abs (n - 1)) in
    match ds with
    | [d] => [d] ++ exponent
    | d :: rest => [d; 46%N] ++ rest ++ exponent
    | [] => exponent
    end.

(** Number::toString *)
Definition NumberToString (x : number) : jstring :=
  match x with
  | NaN => lit "NaN"
  | PosInf => lit "Infinity"
  | NegInf => lit "-Infinity"
  | Fin q =>
      match (q ?= 0)%Q with
      | Eq => lit "0"
      | Lt => [45%N] ++ positive_to_string (- q)
      | Gt => positive_to_string q
      end
  end.

(** The string a value converts to when the conversion does not throw:
    an array is its elements joined by commas, with nothing for [null]
    and [undefined]; a plain object is [[object Object]]. *)
Fixpoint to_string (v : value) : jstring :=
  match v with
  | VUndef => lit "undefined"
  | VNull => lit "null"
  | VBool b => if b then lit "true" else lit "false"
  | VNum n => NumberToString n
  | VStr s => s
  | VArr l =>
      (fix join (l : list value) : jstring :=
         let element x :=
           match x with
           | VUndef | VNull => []
           | _ => to_string x
           end in
         match l with
         | [] => []
         | [x] => element x
         | x :: r => element x ++ [44%N] ++ join r
         end) l
  | VObj _ => lit "[object Object]"
  end.

(** [String(v)] *)
Definition String_ (v : value) : result jstring :=
  if to_primitive_throws v then Throw TypeError else Ok (to_string v).

End JsString.

(* ===================================================================== *)
(** * The account routes *)
(* ===================================================================== *)

Module Accounts.
Import Js Disk JsString.

(** ** accounts.json *)

(** [loadAccounts()]: [try { ... return Array.isArray(parsed) ? parsed : [];
    } catch { return []; }] *)
Definition loadAccounts_try (f : file) : result (list value) :=
  bind (readFileSync f) (fun raw =>
  bind (JSON_parse raw) (fun parsed =>
  Ok (match parsed with VArr l => l | _ => [] end))).

Definition loadAccounts (f : file) : list value :=
  try_catch (loadAccounts_try f) [].

(** [saveAccounts(data)]: the file once [writeFileSync] has returned. *)
Definition saveAccounts (data : list object) : file :=
  Some (JSON_stringify data).

(** ** Accounts *)

(** The object the register route builds,
    [{ id, username, password, createdAt, gameData }], to which the save
    route adds [lastSaved]. *)
Record Account := {
  id : jstring;
  username : jstring;
  password : jstring;
  createdAt : Z;
  gameData : value;
  lastSaved : option Z
}.

Definition num (z : Z) : value := VNum (Fin (inject_Z z)).

(** The account as the JavaScript object it is. *)
Definition account_object (a : Account) : object :=
  [ (lit "id", VStr a.(id));
    (lit "username", VStr a.(username));
    (lit "password", VStr a.(password));
    (lit "createdAt", num a.(createdAt));
    (lit "gameData", a.(gameData)) ]
  ++ match a.(lastSaved) with
     | Some t => [(lit "lastSaved", num t)]
     | None => []
     end.

(** Reading a value back as an account; [None] for a value of any other
    shape. *)
Definition of_account_value (v : value) : option Account :=
  match v with
  | VObj ((k1, VStr i) :: (k2, VStr u) :: (k3, VStr p)
          :: (k4, VNum (Fin (Qmake c 1))) :: (k5, g) :: rest) =>
      if str_eqb k1 (lit "id") && str_eqb k2 (lit "username")
         && str_eqb k3 (lit "password") && str_eqb k4 (lit "createdAt")
         && str_eqb k5 (lit "gameData")
      then
        match rest with
        | [] =>
            Some {| id := i; username := u; password := p; createdAt := c;
                    gameData := g; lastSaved := None |}
        | [(k6, VNum (Fin (Qmake t 1)))] =>
            if str_eqb k6 (lit "lastSaved")
            then Some {| id := i; username := u; password := p;
                         createdAt := c; gameData := g;
                         lastSaved := Some t |}
            else None
        | _ => None
        end
      else None
  | _ => None
  end.

Fixpoint of_account_values (l : list value) : option (list Account) :=
  match l with
  | [] => Some []
  | v :: r =>
      match of_account_value v, of_account_values r with
      | Some a, Some rest => Some (a :: rest)
      | _, _ => None
      end
  end.

(** The file [saveAccounts] leaves for a list of accounts. *)
Definition stored_accounts (l : list Account) : file :=
  saveAccounts (map account_object l).

(** ** Responses *)

Inductive account_message :=
| CredentialsRequired   (* "enter a username and a password" *)
| UsernameLength        (* "the username must have 1 to 16 characters" *)
| UsernameTaken         (* "the username already exists" *)
| NoSuchAccount         (* "the account does not exist" *)
| WrongPassword         (* "the password does not match" *)
| AccountNotFound       (* "the account cannot be found" *)
| GameDataRequired.     (* "game data is needed" *)

Inductive reply :=
| Refused (status : Z) (m : account_message)
    (* res.status(status).json({ message }) *)
| Registered (id username : jstring)
    (* res.json({ ok: true, account: { id, username } }) *)
| LoggedIn (id username : jstring) (gameData : value)
    (* res.json({ ok: true, account: { id, username, gameData } }) *)
| SaveData (gameData : value)
    (* res.json({ ok: true, gameData }) *)
| Saved
    (* res.json({ ok: true }) *)
| Failed (e : exn).
    (* an exception left the handler: 500 *)

(** The fields [const { username, password } = req.body || {}] reads. *)
Record credentials := {
  cred_username : value;
  cred_password : value
}.

(** ** generatePlayerId *)

(** [`player${Math.floor(1000 + Math.random() * 9000)}`] for the value
    [r] of [Math.random()]. *)
Definition candidate_id (r : Q) : jstring :=
  lit "player"
  ++ NumberToString (Fin (inject_Z (Qfloor (1000 + r * 9000)%Q))).

(** [generatePlayerId(accounts)], with the values [Math.random()] takes
    from the call on: the first candidate no account has as its id.
    [None] when the loop has not ended by the last of [draws]. *)
Fixpoint generatePlayerId (draws : list Q) (accounts : list Account)
  : option jstring :=
  match draws with
  | [] => None
  | r :: rest =>
      let candidate := candidate_id r in
      if existsb (fun acc => str_eqb acc.(id) candidate) accounts
      then generatePlayerId rest accounts
      else Some candidate
  end.

(** ** POST /api/accounts/register *)

(** [gameData] of a new account. *)
Definition initial_gameData : value :=
  VObj [ (lit "money", num 0); (lit "power", num 1);
         (lit "upgradeCost", num 50); (lit "incomePerSecond", num 0);
         (lit "rebirth", num 0); (lit "catData", VObj []) ].

(** Lines 165-172 and 211-218, shared by register and login: both fields
    truthy, then [String(username).trim()] and [String(password).trim()].
    [inl] is the response of an early return. *)
Definition clean_credentials (c : credentials) : reply + jstring * jstring :=
  if negb (truthy c.(cred_username)) || negb (truthy c.(cred_password))
  then inl (Refused 400 CredentialsRequired)
  else
    match String_ c.(cred_username) with
    | Throw e => inl (Failed e)
    | Ok su =>
        match String_ c.(cred_password) with
        | Throw e => inl (Failed e)
        | Ok sp => inr (trim su, trim sp)
        end
    end.

(** The register handler at time [now], given the draws of
    [Math.random()] and what [loadAccounts()] returns.  The second
    component is the argument of [saveAccounts], [None] when it is not
    called; the whole is [None] when [generatePlayerId] has not returned
    by the last draw. *)
Definition register (now : Z) (draws : list Q) (c : credentials)
  (accounts : list Account) : option (reply * option (list Account)) :=
  match clean_credentials c with
  | inl r => Some (r, None)
  | inr (cleanUsername, cleanPassword) =>
      if (List.length cleanUsername <? 1)%nat
         || (16 <? List.length cleanUsername)%nat
      then Some (Refused 400 UsernameLength, None)
      else
        let exists_ :=
          existsb (fun acc => str_eqb acc.(username) cleanUsername) accounts in
        if exists_ then Some (Refused 400 UsernameTaken, None)
        else
          match generatePlayerId draws accounts with
          | None => None
          | Some newId =>
              let newAccount :=
                {| id := newId; username := cleanUsername;
                   password := cleanPassword; createdAt := now;
                   gameData := initial_gameData; lastSaved := None |} in
              Some (Registered newAccount.(id) newAccount.(username),
                    Some (accounts ++ [newAccount]))
          end
  end.

(** ** POST /api/accounts/login *)

Definition login (c : credentials) (accounts : list Account) : reply :=
  match clean_credentials c with
  | inl r => r
  | inr (cleanUsername, cleanPassword) =>
      match find (fun acc => str_eqb acc.(username) cleanUsername) accounts with
      | None => Refused 404 NoSuchAccount
      | Some account =>
          if negb (str_eqb account.(password) cleanPassword)
          then Refused 401 WrongPassword
          else LoggedIn account.(id) account.(username) account.(gameData)
      end
  end.

(** ** GET /api/accounts/:username/save *)

(** [account.gameData || {}] *)
Definition or_empty (g : value) : value :=
  if truthy g then g else VObj [].

Definition get_save (user : jstring) (accounts : list Account) : reply :=
  match find (fun acc => str_eqb acc.(username) user) accounts with
  | None => Refused 404 AccountNotFound
  | Some account => SaveData (or_empty account.(gameData))
  end.

(** ** POST /api/accounts/:username/save *)

(** Stands for [accounts[accountIndex]] when the index is outside the
    array, which it never is in the handler. *)
Definition no_account : Account :=
  {| id := []; username := []; password := []; createdAt := 0;
     gameData := VUndef; lastSaved := None |}.

(** The save handler at time [now] for the [gameData] field of the body
    ([VUndef] when the body has none). *)
Definition post_save (now : Z) (user : jstring) (data : value)
  (accounts : list Account) : reply * option (list Account) :=
  if negb (truthy data) then (Refused 400 GameDataRequired, None)
  else
    match findIndex (fun acc => str_eqb acc.(username) user) accounts with
    | None => (Refused 404 AccountNotFound, None)
    | Some accountIndex =>
        let account := nth accountIndex accounts no_account in
        let updated :=
          {| id := account.(id); username := account.(username);
             password := account.(password); createdAt := account.(createdAt);
             gameData := data; lastSaved := Some now |} in
        (Saved, Some (assign accountIndex updated accounts))
    end.

(** ** What the file keeps *)

(** An account as it comes back from the file: [JSON.stringify] writes
    [gameData] as {!Disk.stringified} has it. *)
Definition kept (a : Account) : Account :=
  {| id := a.(id); username := a.(username); password := a.(password);
     createdAt := a.(createdAt); gameData := stringified a.(gameData);
     lastSaved := a.(lastSaved) |}.

(** The accounts the next handler loads: those of the array saved, or
    the ones that were there when nothing was saved. *)
Definition accounts_after (accounts : list Account)
  (saved : option (list Account)) : list Account :=
  match saved with
  | Some data => map kept data
  | None => accounts
  end.

End Accounts.

(* ===================================================================== *)
(** * Induction on values *)
(* ===================================================================== *)

(** [value] nests itself under [list]: the induction principle that
    reaches the elements of arrays and the properties of objects. *)
Section ValueInduction.
Variable P : value -> Prop.
Hypothesis HUndef : P VUndef.
Hypothesis HNull : P VNull.
Hypothesis HBool : forall b, P (VBool b).
Hypothesis HNum : forall n, P (VNum n).
Hypothesis HStr : forall s, P (VStr s).
Hypothesis HArr : forall l, Forall P l -> P (VArr l).
Hypothesis HObj : forall o, Forall (fun kv => P (snd kv)) o -> P (VObj o).

Fixpoint value_induction (v : value) : P v :=
  match v with
  | VUndef => HUndef
  | VNull => HNull
  | VBool b => HBool b
  | VNum n => HNum n
  | VStr s => HStr s
  | VArr l =>
      HArr ((fix all (l : list value) : Forall P l :=
               match l with
               | [] => Forall_nil P
               | x :: r => Forall_cons x (value_induction x) (all r)
               end) l)
  | VObj o =>
      HObj ((fix all (o : list (jstring * value))
               : Forall (fun kv => P (snd kv)) o :=
               match o with
               | [] => Forall_nil _
               | kv :: r => Forall_cons kv (value_induction (snd kv)) (all r)
               end) o)
  end.
End ValueInduction.

(* ===================================================================== *)
(** * Further notions *)
(* ===================================================================== *)

(** What every entry the POST route builds looks like: a name of 1 to 40
    code units that does not start with white space, money from 0 to
    5 * 10^9, a rebirth count from 0 up. *)
Definition entry_shape (e : Entry) : Prop :=
  (1 <= List.length (name e) <= 40)%nat /\
  (exists c r, name e = c :: r /\ isWhiteSpace c = false) /\
  0 <= money e <= 5000000000 /\
  0 <= rebirth e.


(** No code unit of [s] at either end is white space. *)
Definition trimmed (s : jstring) : Prop := trim s = s.

(** The properties [JSON.stringify] writes for an object. *)
Fixpoint stringified_props (o : list (jstring * value))
  : list (jstring * value) :=
  match o with
  | [] => []
  | (k, VUndef) :: r => stringified_props r
  | (k, x) :: r => (k, stringified x) :: stringified_props r
  end.

Import JsString Accounts.

(** The account has a [gameData] that [JSON.stringify] writes as it is:
    so has every account that came from the file. *)
Definition on_disk (a : Account) : Prop :=
  stringified (gameData a) = gameData a.

(** What register makes true of an account: a username of 1 to 16 code
    units, and no white space at either end of the username or of the
    password. *)
Definition account_shape (a : Account) : Prop :=
  trimmed (username a) /\ (1 <= List.length (username a) <= 16)%nat /\
  trimmed (password a).

(** What the routes keep true of the accounts: no two share a username
    or an id, and each has the shape above. *)
Definition accounts_ok (l : list Account) : Prop :=
  NoDup (map username l) /\ NoDup (map id l) /\ Forall account_shape l.

(** A body with a username and a password, both strings. *)
Definition sign_in (u p : string) : credentials :=
  {| cred_username := VStr (lit u); cred_password := VStr (lit p) |}.

(** Two accounts as register builds them. *)
Definition ann : Account :=
  {| id := lit "player5500"; username := lit "ann"; password := lit "pw";
     createdAt := 5; gameData := initial_gameData; lastSaved := None |}.

Definition bea : Account :=
  {| id := lit "player7750"; username := lit "bea"; password := lit "x";
     createdAt := 9; gameData := initial_gameData; lastSaved := None |}.

(* ===================================================================== *)
(** * Facts about the built-ins *)
(* ===================================================================== *)

Module JsFacts.
Import Js.

Lemma str_eqb_eq (a b : jstring) : str_eqb a b = true <-> a = b.
Proof.
  revert b. induction a as [|x a IH]; intros [|y b]; simpl;
    try (split; congruence).
  rewrite Bool.andb_true_iff, N.eqb_eq, IH. split.
  - now intros [-> ->].
  - intros H. now injection H.
Qed.

Lemma str_eqb_refl (a : jstring) : str_eqb a a = true.
Proof. now apply str_eqb_eq. Qed.

Lemma Qltb_lt (x y : Q) : Qltb x y = true <-> (x < y)%Q.
Proof.
  unfold Qltb. rewrite Qlt_alt. destruct (x ?= y)%Q; split; congruence.
Qed.

Lemma Qltb_ge (x y : Q) : Qltb x y = false <-> (y <= x)%Q.
Proof.
  rewrite <- Bool.not_true_iff_false, Qltb_lt. split.
  - apply Qnot_lt_le.
  - apply Qle_not_lt.
Qed.

(** *** [slice] *)

Lemma slice0_length {A} (n : nat) (l : list A) :
  (List.length (slice0 n l) <= n)%nat.
Proof. apply firstn_le_length. Qed.

Lemma slice0_all {A} (n : nat) (l : list A) :
  (List.length l <= n)%nat -> slice0 n l = l.
Proof. apply firstn_all2. Qed.

Lemma slice0_In {A} (n : nat) (l : list A) (x : A) :
  In x (slice0 n l) -> In x l.
Proof.
  intros H. rewrite <- (firstn_skipn n l). apply in_or_app. now left.
Qed.

Lemma slice0_NoDup {A B} (f : A -> B) (n : nat) (l : list A) :
  NoDup (map f l) -> NoDup (map f (slice0 n l)).
Proof.
  intros H. rewrite <- (firstn_skipn n l), map_app in H.
  now apply NoDup_app_remove_r in H.
Qed.

Lemma slice0_Sorted {A} (R : A -> A -> Prop) (n : nat) (l : list A) :
  Sorted R l -> Sorted R (slice0 n l).
Proof.
  revert l. induction n as [|n IH]; intros l H; simpl.
  - constructor.
  - destruct l as [|x r]; [constructor|].
    apply Sorted_inv in H. destruct H as [Hr Hx].
    constructor.
    + now apply IH.
    + destruct r as [|y r']; [destruct n; constructor|].
      destruct n; simpl; constructor.
      now inversion Hx.
Qed.

(** *** [findIndex] and index assignment *)

Section Find.
Variable A : Type.
Variable p : A -> bool.

Lemma findIndex_None (l : list A) :
  findIndex p l = None -> forall x, In x l -> p x = false.
Proof.
  induction l as [|y r IH]; simpl; intros H x Hx; [contradiction|].
  destruct (p y) eqn:Hy; [discriminate|].
  destruct (findIndex p r); [discriminate|].
  destruct Hx as [<-|Hx]; auto.
Qed.

Lemma findIndex_Some (l : list A) (i : nat) (d : A) :
  findIndex p l = Some i ->
  (i < List.length l)%nat /\ p (nth i l d) = true /\ In (nth i l d) l.
Proof.
  revert i. induction l as [|y r IH]; simpl; intros i H; [discriminate|].
  destruct (p y) eqn:Hy.
  - injection H as <-. repeat split; auto. lia.
  - destruct (findIndex p r) as [j|]; [|discriminate].
    injection H as <-. destruct (IH j eq_refl) as (Hl & Hp & Hin).
    repeat split; auto. lia.
Qed.


Lemma assign_length (i : nat) (x : A) (l : list A) :
  List.length (assign i x l) = List.length l.
Proof.
  revert i. induction l as [|y r IH]; intros [|i]; simpl; auto.
Qed.

Lemma assign_In (i : nat) (x : A) (l : list A) :
  (i < List.length l)%nat -> In x (assign i x l).
Proof.
  revert i. induction l as [|y r IH]; intros [|i]; simpl; intros H;
    try lia; auto.
  right. apply IH. lia.
Qed.

Lemma assign_map {B} (f : A -> B) (i : nat) (x d : A) (l : list A) :
  (i < List.length l)%nat -> f x = f (nth i l d) ->
  map f (assign i x l) = map f l.
Proof.
  revert i. induction l as [|y r IH]; intros [|i]; simpl; intros H E;
    try lia; f_equal; auto.
  apply IH; [lia|assumption].
Qed.
End Find.

(** *** [sort] *)

Section SortFacts.
Variable A : Type.
Variable compareFn : A -> A -> Z.

Lemma insert_perm (x : A) (l : list A) :
  Permutation (insert compareFn x l) (x :: l).
Proof.
  induction l as [|y r IH]; simpl; [reflexivity|].
  destruct (compareFn x y <=? 0); [reflexivity|].
  rewrite IH. apply perm_swap.
Qed.

Lemma sort_perm (l : list A) : Permutation (sort compareFn l) l.
Proof.
  induction l as [|x r IH]; simpl; [reflexivity|].
  rewrite insert_perm. now constructor.
Qed.

Lemma sort_length (l : list A) :
  List.length (sort compareFn l) = List.length l.
Proof. apply Permutation_length, sort_perm. Qed.

(** A comparator is connected when of two elements one may always stand
    in front of the other. *)
Hypothesis connected : forall a b, before compareFn a b \/ before compareFn b a.

Lemma insert_Sorted (x : A) (l : list A) :
  Sorted (before compareFn) l -> Sorted (before compareFn) (insert compareFn x l).
Proof.
  induction l as [|y r IH]; simpl; intros H.
  - repeat constructor.
  - destruct (Z.leb_spec (compareFn x y) 0) as [Hle|Hgt].
    + constructor; [assumption|]. now constructor.
    + apply Sorted_inv in H. destruct H as [Hr Hy].
      constructor; [now apply IH|].
      assert (Hyx : before compareFn y x).
      { destruct (connected x y) as [H|H]; [unfold before in H; lia|exact H]. }
      destruct r as [|z r']; simpl.
      * now constructor.
      * destruct (compareFn x z <=? 0); constructor; auto.
        now inversion Hy.
Qed.

Lemma sort_Sorted (l : list A) : Sorted (before compareFn) (sort compareFn l).
Proof.
  induction l as [|x r IH]; simpl; [constructor|].
  now apply insert_Sorted.
Qed.

(** The sort is stable, so it leaves a sorted array as it is. *)
Lemma sort_of_Sorted (l : list A) :
  Sorted (before compareFn) l -> sort compareFn l = l.
Proof.
  induction l as [|x r IH]; simpl; intros H; [reflexivity|].
  apply Sorted_inv in H. destruct H as [Hr Hx].
  rewrite (IH Hr). destruct r as [|y r']; [reflexivity|].
  simpl. inversion Hx as [|? ? Hxy]; subst.
  unfold before in Hxy. now apply Z.leb_le in Hxy as ->.
Qed.
End SortFacts.

End JsFacts.

(* ===================================================================== *)
(** * The collection invariants *)
(* ===================================================================== *)

Import JsFacts.

Lemma before_not_below (a b : Entry) :
  before by_rebirth_then_money a b <-> ~ ranks_below a b.
Proof.
  unfold before, by_rebirth_then_money, ranks_below.
  destruct (Z.eqb_spec (rebirth b) (rebirth a)); simpl; lia.
Qed.

Lemma by_rebirth_then_money_connected (a b : Entry) :
  before by_rebirth_then_money a b \/ before by_rebirth_then_money b a.
Proof.
  unfold before, by_rebirth_then_money.
  destruct (Z.eqb_spec (rebirth b) (rebirth a));
    destruct (Z.eqb_spec (rebirth a) (rebirth b)); simpl; lia.
Qed.

Lemma Sorted_iff {A} (R R' : A -> A -> Prop) (l : list A) :
  (forall a b, R a b <-> R' a b) -> Sorted R l -> Sorted R' l.
Proof.
  intros HR. induction 1 as [|x l Hl IH Hx]; constructor; auto.
  destruct Hx; constructor. now apply HR.
Qed.

Lemma sort_ranked (l : list Entry) : ranked (sort by_rebirth_then_money l).
Proof.
  apply Sorted_iff with (R := before by_rebirth_then_money).
  - apply before_not_below.
  - apply sort_Sorted, by_rebirth_then_money_connected.
Qed.

Lemma sort_of_ranked (l : list Entry) :
  ranked l -> sort by_rebirth_then_money l = l.
Proof.
  intros H. apply sort_of_Sorted.
  apply Sorted_iff with (R := fun a b => ~ ranks_below a b); [|exact H].
  intros a b. symmetry. apply before_not_below.
Qed.

(** What [sort_and_save] hands to [saveLeaderboard] is bounded and
    ranked, whatever the array was. *)
Lemma saved_bounded_ranked (l : list Entry) :
  let sorted := slice0 100 (sort by_rebirth_then_money l) in
  (List.length sorted <= 100)%nat /\ ranked sorted.
Proof.
  split.
  - apply slice0_length.
  - apply slice0_Sorted, sort_ranked.
Qed.

Lemma saved_names_NoDup (l : list Entry) :
  NoDup (names l) ->
  NoDup (names (slice0 100 (sort by_rebirth_then_money l))).
Proof.
  intros H. apply slice0_NoDup.
  eapply Permutation_NoDup; [|exact H].
  apply Permutation_map, Permutation_sym, sort_perm.
Qed.

(** With room for all of it, the saved collection is a rearrangement of
    the array. *)
Lemma saved_perm (l : list Entry) :
  (List.length l <= 100)%nat ->
  Permutation (slice0 100 (sort by_rebirth_then_money l)) l.
Proof.
  intros H. rewrite slice0_all by now rewrite sort_length.
  apply sort_perm.
Qed.

(** ** What the merge does to the array *)

Lemma merge_entry_saved entry leaderboard r sorted :
  merge_entry entry leaderboard = (r, Some sorted) ->
  r = OkTrue /\
  exists l, merged entry leaderboard l /\
            sorted = slice0 100 (sort by_rebirth_then_money l).
Proof.
  unfold merge_entry, sort_and_save.
  destruct (findIndex _ leaderboard) as [i|] eqn:Hfind.
  - destruct (Qltb _ _); [discriminate|].
    destruct (_ && _); [discriminate|].
    intros H. injection H as <- <-. split; [reflexivity|].
    destruct (_ || _); eexists; split; try reflexivity.
    + now apply merged_assign.
    + now apply merged_keep with i.
  - intros H. injection H as <- <-. split; [reflexivity|].
    eexists; split; [now apply merged_push|reflexivity].
Qed.

Lemma merge_entry_not_saved entry leaderboard r :
  merge_entry entry leaderboard = (r, None) ->
  exists i,
    findIndex (fun item => str_eqb (name item) (name entry)) leaderboard = Some i
    /\ (r = Rejected 429 TooFrequent \/ r = Rejected 400 AbnormalIncrease).
Proof.
  unfold merge_entry, sort_and_save.
  destruct (findIndex _ leaderboard) as [i|] eqn:Hfind; [|discriminate].
  exists i. split; [reflexivity|].
  destruct (Qltb _ _); [injection H as <-; auto|].
  destruct (_ && _); [injection H as <-; auto|discriminate].
Qed.

Lemma found_name entry leaderboard i :
  findIndex (fun item => str_eqb (name item) (name entry)) leaderboard = Some i ->
  (i < List.length leaderboard)%nat /\
  name (nth i leaderboard entry) = name entry /\
  In (name entry) (names leaderboard).
Proof.
  intros H. destruct (findIndex_Some _ _ entry H) as (Hi & Hp & Hin).
  apply str_eqb_eq in Hp. repeat split; auto.
  rewrite <- Hp. now apply in_map.
Qed.

Lemma merged_names entry leaderboard l :
  merged entry leaderboard l ->
  (names l = names leaderboard ++ [name entry]
   /\ ~ In (name entry) (names leaderboard))
  \/ (names l = names leaderboard /\ In (name entry) (names leaderboard)).
Proof.
  unfold names. intros [Hnone|i Hsome|i Hsome].
  - left. split; [now rewrite map_app|].
    intros Hin. apply in_map_iff in Hin. destruct Hin as (x & Hx & Hin).
    apply (findIndex_None _ _ Hnone) in Hin.
    rewrite Hx, str_eqb_refl in Hin. discriminate.
  - right. destruct (found_name _ _ Hsome) as (Hi & Hn & Hin).
    split; [|exact Hin].
    apply assign_map with (d := entry); auto.
  - right. destruct (found_name _ _ Hsome) as (Hi & Hn & Hin). now split.
Qed.

Lemma merged_NoDup entry leaderboard l :
  merged entry leaderboard l -> NoDup (names leaderboard) -> NoDup (names l).
Proof.
  intros Hm Hnd. destruct (merged_names Hm) as [[-> Hnew]|[-> _]]; [|exact Hnd].
  apply NoDup_app; auto.
  - repeat constructor. intros [].
  - intros n Hn [<-|[]]. contradiction.
Qed.


(** One accepted submission keeps the invariants. *)
Lemma post_keeps_invariants now b leaderboard :
  NoDup (names leaderboard) ->
  fst (post_leaderboard now b leaderboard) = OkTrue ->
  exists sorted,
    snd (post_leaderboard now b leaderboard) = Some sorted /\
    collection_ok sorted.
Proof.
  intros Hnd. unfold post_leaderboard.
  destruct (build_entry now b) as [entry|r] eqn:Hb.
  - destruct (merge_entry entry leaderboard) as [r [sorted|]] eqn:Hm; simpl.
    + intros _. exists sorted. split; [reflexivity|].
      destruct (merge_entry_saved _ _ Hm) as (_ & l & Hl & ->).
      split; [|apply saved_bounded_ranked].
      apply saved_names_NoDup. eapply merged_NoDup; eauto.
    + intros ->. destruct (merge_entry_not_saved _ _ Hm) as (i & _ & [H|H]);
        discriminate.
  - simpl. intros ->. unfold build_entry in Hb.
    exfalso. revert Hb. unfold and_then, return_if, call.
    repeat match goal with
           | |- context [if ?c then _ else _] => destruct c
           | |- context [match Number ?v with _ => _ end] => destruct (Number v)
           end; discriminate.
Qed.

Lemma persisted_after_NoDup store rq :
  NoDup (names store) -> NoDup (names (persisted_after store rq)).
Proof.
  intros Hnd. unfold persisted_after, post_leaderboard.
  destruct (build_entry (fst rq) (snd rq)) as [entry|r]; simpl; [|exact Hnd].
  destruct (merge_entry entry store) as [r [sorted|]] eqn:Hm; simpl; [|exact Hnd].
  destruct (merge_entry_saved _ _ Hm) as (_ & l & Hl & ->).
  apply saved_names_NoDup. eapply merged_NoDup; eauto.
Qed.

Lemma process_NoDup requests store :
  NoDup (names store) -> NoDup (names (process store requests)).
Proof.
  revert store. induction requests as [|rq rest IH]; intros store H; simpl.
  - exact H.
  - apply IH, persisted_after_NoDup, H.
Qed.

Lemma persisted_after_ok store rq :
  collection_ok store -> collection_ok (persisted_after store rq).
Proof.
  intros Hok. unfold persisted_after.
  destruct (post_leaderboard (fst rq) (snd rq) store) as [r saved] eqn:Hp.
  destruct saved as [sorted|]; simpl; [|exact Hok].
  destruct (@post_keeps_invariants (fst rq) (snd rq) store)
    as (sorted' & Hs & Hinv).
  - apply Hok.
  - rewrite Hp. simpl. unfold post_leaderboard in Hp.
    destruct (build_entry (fst rq) (snd rq)); [|discriminate].
    now destruct (merge_entry_saved _ _ Hp).
  - rewrite Hp in Hs. simpl in Hs. now injection Hs as <-.
Qed.

Lemma process_ok requests store :
  collection_ok store -> collection_ok (process store requests).
Proof.
  revert store. induction requests as [|rq rest IH]; intros store H; simpl.
  - exact H.
  - apply IH, persisted_after_ok, H.
Qed.

Lemma empty_ok : collection_ok [].
Proof. repeat split; simpl; try constructor. lia. Qed.

(** C4.  After every accepted submission the persisted collection has no
    two entries of the same name, at most 100 entries, and no entry that
    ranks below its successor (rebirth first, then money) -- in every
    state the server reaches from a collection with distinct names, the
    empty one it starts from in particular. *)
Theorem accepted_submission_keeps_invariants :
  forall (initial : list Entry) (requests : list (Z * body))
         (now : Z) (b : body),
    NoDup (names initial) ->
    let leaderboard := process initial requests in
    fst (post_leaderboard now b leaderboard) = OkTrue ->
    exists sorted,
      snd (post_leaderboard now b leaderboard) = Some sorted /\
      persisted_after leaderboard (now, b) = sorted /\
      NoDup (names sorted) /\
      (List.length sorted <= 100)%nat /\
      ranked sorted.
Proof.
  intros initial requests now b Hnd leaderboard Hok.
  destruct (@post_keeps_invariants now b leaderboard)
    as (sorted & Hs & Hinv); auto.
  - now apply process_NoDup.
  - exists sorted. split; [exact Hs|]. split; [|exact Hinv].
    unfold persisted_after. simpl. now rewrite Hs.
Qed.

Lemma accepted_submission_keeps_invariants_witness :
  NoDup (names []) /\
  fst (post_leaderboard 10000 (submission "alice" 1000000 0)
         (process [] [(0, submission "alice" 1000 0);
                      (7000, submission "bob" 50 2)])) = OkTrue /\
  exists sorted,
    snd (post_leaderboard 10000 (submission "alice" 1000000 0)
           (process [] [(0, submission "alice" 1000 0);
                        (7000, submission "bob" 50 2)])) = Some sorted /\
    persisted_after
      (process [] [(0, submission "alice" 1000 0);
                   (7000, submission "bob" 50 2)])
      (10000, submission "alice" 1000000 0) = sorted /\
    NoDup (names sorted) /\
    (List.length sorted <= 100)%nat /\
    ranked sorted.
Proof.
  split; [constructor|]. split; [reflexivity|].
  apply (@accepted_submission_keeps_invariants []
           [(0, submission "alice" 1000 0); (7000, submission "bob" 50 2)]
           10000 (submission "alice" 1000000 0)).
  - constructor.
  - reflexivity.
Defined.

(* ===================================================================== *)
(** * Submissions in flight together *)
(* ===================================================================== *)







(* ===================================================================== *)
(** * The checks on the body *)
(* ===================================================================== *)

(** The name passes when it is a string that is not blank. *)
Lemma name_check (v : value) :
  negb (truthy v) || negb (is_string v)
  || negb (truthy (VStr (trim (string_of v)))) = false <->
  exists s, v = VStr s /\ trim s <> [].
Proof.
  split.
  - destruct v as [| |[] |x |s |? |?]; simpl; try discriminate;
      [destruct (truthy_number x); discriminate|].
    destruct s as [|c s]; simpl; [discriminate|].
    destruct (trim (c :: s)) eqn:Ht; [discriminate|].
    intros _. exists (c :: s). rewrite Ht. split; [reflexivity|discriminate].
  - intros (s & -> & Ht). simpl.
    destruct s as [|c s]; [now elim Ht|].
    destruct (trim (c :: s)); [now elim Ht|reflexivity].
Qed.

(** A body passes the checks exactly when its name is a string that is
    not blank, its money converts to a finite number from 0 to 5 * 10^9,
    and its rebirth count, after the default, is an integer from 0 up;
    the entry then carries the trimmed name cut to 40 code units. *)
Lemma build_entry_Next now b entry :
  build_entry now b = Next entry <->
  exists s safeMoney n,
    body_name b = VStr s /\ trim s <> [] /\
    Number (body_money b) = Ok safeMoney /\
    isFinite safeMoney = true /\ lt safeMoney (Fin 0) = false /\
    gt safeMoney (Fin 5000000000) = false /\
    Number (body_rebirth b) = Ok n /\
    isInteger (or_zero n) = true /\ lt (or_zero n) (Fin 0) = false /\
    entry = {| name := slice0 40 (trim s);
               money := Math_floor safeMoney;
               rebirth := integer_of (or_zero n);
               updatedAt := now |}.
Proof.
  unfold build_entry, and_then, return_if, call. fold or_zero. split.
  - destruct (_ || _ || _) eqn:Hname; cbv beta iota; [discriminate|].
    apply name_check in Hname. destruct Hname as (s & Hs & Ht).
    destruct (Number (body_money b)) as [safeMoney|]; cbv beta iota;
      [|discriminate].
    destruct (negb (isFinite safeMoney) || lt safeMoney (Fin 0)) eqn:Hm;
      cbv beta iota; [discriminate|].
    apply Bool.orb_false_iff in Hm. destruct Hm as [Hf Hlt].
    apply Bool.negb_false_iff in Hf.
    destruct (gt safeMoney (Fin 5000000000)) eqn:Hgt;
      cbv beta iota; [discriminate|].
    destruct (Number (body_rebirth b)) as [n|]; cbv beta iota zeta;
      [|discriminate].
    fold (or_zero n).
    destruct (negb (isInteger (or_zero n)) || lt (or_zero n) (Fin 0)) eqn:Hr;
      cbv beta iota; [discriminate|].
    apply Bool.orb_false_iff in Hr. destruct Hr as [Hi Hl].
    apply Bool.negb_false_iff in Hi.
    intros H. injection H as <-.
    exists s, safeMoney, n. rewrite Hs. repeat split; auto.
  - intros (s & safeMoney & n & Hs & Ht & -> & Hf & Hlt & -> & -> & Hi & Hl & ->).
    assert (Hname : negb (truthy (body_name b)) || negb (is_string (body_name b))
              || negb (truthy (VStr (trim (string_of (body_name b))))) = false)
      by (apply name_check; eauto).
    rewrite Hname. cbv beta iota zeta. fold (or_zero n).
    rewrite Hf, Hlt, Hi, Hl, Hs. reflexivity.
Qed.

Lemma build_entry_updatedAt now b entry :
  build_entry now b = Next entry -> updatedAt entry = now.
Proof.
  intros H. apply build_entry_Next in H.
  destruct H as (s & m & n & _ & _ & _ & _ & _ & _ & _ & _ & _ & ->).
  reflexivity.
Qed.


(* ===================================================================== *)
(** * The checks against the previous entry *)
(* ===================================================================== *)



(* ===================================================================== *)
(** * Replace, keep, insert *)
(* ===================================================================== *)

Lemma filter_perm {A} (f : A -> bool) (l l' : list A) :
  Permutation l l' -> Permutation (filter f l) (filter f l').
Proof.
  induction 1 as [|x l l' _ IH|x y l|l l' l'' _ IH1 _ IH2]; simpl.
  - constructor.
  - destruct (f x); [now constructor|exact IH].
  - destruct (f x), (f y); try reflexivity. apply perm_swap.
  - now transitivity (filter f l').
Qed.

Lemma named_absent (n : jstring) (l : list Entry) :
  ~ In n (names l) -> named n l = [].
Proof.
  induction l as [|y r IH]; simpl; intros H; [reflexivity|].
  destruct (str_eqb (name y) n) eqn:E.
  - apply str_eqb_eq in E. elim H. now left.
  - apply IH. intros Hin. apply H. now right.
Qed.

(** With distinct names, the entries stored under the name of a stored
    entry are that entry alone. *)
Lemma named_unique (x : Entry) (l : list Entry) :
  NoDup (names l) -> In x l -> named (name x) l = [x].
Proof.
  induction l as [|y r IH]; simpl; intros Hnd Hin; [contradiction|].
  apply NoDup_cons_iff in Hnd. destruct Hnd as [Hy Hr].
  destruct Hin as [->|Hin].
  - rewrite str_eqb_refl. f_equal. now apply named_absent.
  - destruct (str_eqb (name y) (name x)) eqn:E.
    + apply str_eqb_eq in E. elim Hy. rewrite E. now apply in_map.
    + now apply IH.
Qed.



(** The handler, for a name that has a previous entry, once both checks
    against that entry have passed. *)
Lemma merge_existing entry leaderboard i :
  findIndex (fun item => str_eqb (name item) (name entry)) leaderboard = Some i ->
  fst (merge_entry entry leaderboard) = OkTrue ->
  let previousEntry := nth i leaderboard entry in
  merge_entry entry leaderboard
  = sort_and_save
      (if (money entry >? money previousEntry)
          || (rebirth entry >? rebirth previousEntry)
       then assign i entry leaderboard
       else leaderboard)
  /\ updatedAt previousEntry <> updatedAt entry.
Proof.
  intros Hfind. unfold merge_entry. rewrite Hfind. cbv zeta.
  destruct (Qltb _ 5) eqn:Hrate; [discriminate|].
  destruct (Qltb _ _ && _); [discriminate|].
  intros _. split; [reflexivity|].
  intros Heq. rewrite Heq, Z.sub_diag in Hrate. discriminate.
Qed.

(** C5 (as amended).  For a body that passes its checks and a name that
    has a previous entry, once the two checks against that entry have
    passed: the stored entry is replaced if and only if the money or the
    rebirth count is strictly higher than the previous one; otherwise the
    stored entry stays as it was, time stamp included.  The answer is
    [{ ok: true }] in both cases. *)
Theorem replaced_only_when_improved :
  forall (now : Z) (b : body) (entry : Entry) (leaderboard : list Entry)
         (i : nat),
    build_entry now b = Next entry ->
    findIndex (fun item => str_eqb (name item) (name entry)) leaderboard
    = Some i ->
    NoDup (names leaderboard) ->
    (List.length leaderboard <= 100)%nat ->
    fst (post_leaderboard now b leaderboard) = OkTrue ->
    let previous := nth i leaderboard entry in
    exists sorted,
      post_leaderboard now b leaderboard = (OkTrue, Some sorted) /\
      (named (name entry) sorted = [entry]
       <-> money entry > money previous \/ rebirth entry > rebirth previous) /\
      (~ (money entry > money previous \/ rebirth entry > rebirth previous)
       -> named (name entry) sorted = [previous]).
Proof.
  intros now b entry leaderboard i Hb Hfind Hnd Hlen Hok previous.
  unfold post_leaderboard in *. rewrite Hb in *.
  destruct (merge_existing _ _ Hfind Hok) as [Hm Hstamp].
  fold previous in Hm, Hstamp. rewrite Hm. unfold sort_and_save.
  destruct (found_name _ _ Hfind) as (Hi & Hname & _).
  fold previous in Hname.
  eexists. split; [reflexivity|].
  destruct ((money entry >? money previous)
            || (rebirth entry >? rebirth previous)) eqn:Himp.
  - assert (Hstored : named (name entry)
              (slice0 100 (sort by_rebirth_then_money (assign i entry leaderboard)))
              = [entry]).
    { apply named_unique.
      - apply saved_names_NoDup. unfold names.
        rewrite assign_map with (d := entry); auto.
      - eapply Permutation_in.
        + apply Permutation_sym, saved_perm. now rewrite assign_length.
        + now apply assign_In. }
    apply orb_true_iff in Himp. split; [split; [lia|auto]|lia].
  - assert (Hstored : named (name entry)
              (slice0 100 (sort by_rebirth_then_money leaderboard))
              = [previous]).
    { rewrite <- Hname. apply named_unique.
      - now apply saved_names_NoDup.
      - eapply Permutation_in.
        + apply Permutation_sym, saved_perm, Hlen.
        + now apply (findIndex_Some _ _ entry Hfind). }
    apply orb_false_iff in Himp. split; [|auto].
    rewrite Hstored. split; [|lia].
    intros H. injection H as H. elim Hstamp. now rewrite H.
Qed.

Lemma replaced_only_when_improved_witness :
  build_entry 10000 (submission "alice" 500 0)
  = Next {| name := lit "alice"; money := 500; rebirth := 0;
            updatedAt := 10000 |} /\
  exists sorted,
    post_leaderboard 10000 (submission "alice" 500 0) [alice_at_0]
    = (OkTrue, Some sorted) /\
    named (lit "alice") sorted = [alice_at_0].
Proof.
  split; [reflexivity|].
  destruct (@replaced_only_when_improved 10000 (submission "alice" 500 0)
              {| name := lit "alice"; money := 500; rebirth := 0;
                 updatedAt := 10000 |}
              [alice_at_0] 0%nat eq_refl eq_refl)
    as (sorted & Hpost & _ & Hkeep).
  - repeat constructor. intros [].
  - simpl. lia.
  - reflexivity.
  - exists sorted. split; [exact Hpost|].
    apply Hkeep. simpl. lia.
Defined.

(** C5, as stated, fails on the answer: a submission that is dropped and
    one that replaces the stored entry get the same response, so no
    reading of the response tells [ranked=false] from [ranked=true]. *)
Lemma response_does_not_tell_ranked :
  let dropped := post_leaderboard 10000 (submission "alice" 500 0) [alice_at_0] in
  let replaced := post_leaderboard 10000 (submission "alice" 2000 0) [alice_at_0] in
  snd dropped = Some [alice_at_0] /\
  snd replaced = Some [{| name := lit "alice"; money := 2000; rebirth := 0;
                          updatedAt := 10000 |}] /\
  fst dropped = OkTrue /\ fst replaced = OkTrue /\
  ~ exists ranked : response -> bool,
      ranked (fst dropped) = false /\ ranked (fst replaced) = true.
Proof.
  repeat split; try reflexivity.
  intros (ranked & Hd & Hr).
  change (fst (post_leaderboard 10000 (submission "alice" 2000 0) [alice_at_0]))
    with (fst (post_leaderboard 10000 (submission "alice" 500 0) [alice_at_0]))
    in Hr.
  rewrite Hd in Hr. discriminate.
Qed.

(* ===================================================================== *)
(** * A submission that changes nothing *)
(* ===================================================================== *)

Lemma stringified_entries (l : list Entry) :
  stringified (VArr (map VObj (map to_object l)))
  = VArr (map VObj (map to_object l)).
Proof.
  simpl. f_equal. induction l as [|e r IH]; simpl; [reflexivity|].
  now rewrite IH.
Qed.

Lemma with_rebirth_entry (e : Entry) :
  with_rebirth (VObj (to_object e)) = Ok (to_object e).
Proof. reflexivity. Qed.

Lemma of_object_entry (e : Entry) : of_object (to_object e) = Some e.
Proof. now destruct e. Qed.

Lemma of_objects_entries (l : list Entry) :
  of_objects (map to_object l) = Some l.
Proof.
  induction l as [|e r IH]; [reflexivity|].
  change (map to_object (e :: r)) with (to_object e :: map to_object r).
  cbn [of_objects]. now rewrite of_object_entry, IH.
Qed.

(** Loading what was saved for a list of entries gives their objects
    back. *)
Lemma load_stored (l : list Entry) :
  loadLeaderboard (stored l) = map to_object l.
Proof.
  unfold stored, saveLeaderboard, JSON_stringify, loadLeaderboard,
    loadLeaderboard_try.
  rewrite stringified_entries. cbn [readFileSync JSON_parse bind].
  assert (H : map_result with_rebirth (map VObj (map to_object l))
              = Ok (map to_object l)).
  { induction l as [|e r IH]; [reflexivity|].
    change (map VObj (map to_object (e :: r)))
      with (VObj (to_object e) :: map VObj (map to_object r)).
    cbn [map_result]. now rewrite with_rebirth_entry, IH. }
  now rewrite H.
Qed.

(** On a file the server wrote, the handler on the file is the handler on
    the entries. *)
Lemma post_on_stored now b (l : list Entry) :
  post_on_file now b (stored l)
  = Some (match post_leaderboard now b l with
          | (r, Some sorted) => (r, stored sorted)
          | (r, None) => (r, stored l)
          end).
Proof.
  unfold post_on_file, post_leaderboard.
  destruct (build_entry now b) as [entry|r]; [|reflexivity].
  rewrite load_stored, of_objects_entries.
  now destruct (merge_entry entry l) as [r [sorted|]].
Qed.

(** C8 (as amended).  A submission that is dropped (it has a previous
    entry, passes both checks against it, and is higher in neither money
    nor rebirth count) still sorts the collection, cuts it to 100 and
    writes it.  What it writes is the collection as loaded when that was
    ranked and within the bound: the file is then rewritten with the
    content it had. *)
Theorem dropped_submission_rewrites :
  forall (now : Z) (b : body) (entry : Entry) (leaderboard : list Entry)
         (i : nat),
    build_entry now b = Next entry ->
    findIndex (fun item => str_eqb (name item) (name entry)) leaderboard
    = Some i ->
    fst (post_leaderboard now b leaderboard) = OkTrue ->
    let previous := nth i leaderboard entry in
    money entry <= money previous ->
    rebirth entry <= rebirth previous ->
    post_leaderboard now b leaderboard
    = (OkTrue, Some (slice0 100 (sort by_rebirth_then_money leaderboard)))
    /\
    (ranked leaderboard -> (List.length leaderboard <= 100)%nat ->
     post_leaderboard now b leaderboard = (OkTrue, Some leaderboard) /\
     post_on_file now b (stored leaderboard)
     = Some (OkTrue, stored leaderboard)).
Proof.
  intros now b entry leaderboard i Hb Hfind Hok previous Hmoney Hrebirth.
  assert (Hpost : post_leaderboard now b leaderboard
                  = (OkTrue,
                     Some (slice0 100 (sort by_rebirth_then_money leaderboard)))).
  { unfold post_leaderboard in *. rewrite Hb in *.
    destruct (merge_existing _ _ Hfind Hok) as [Hm _].
    fold previous in Hm. rewrite Hm.
    replace ((money entry >? money previous)
             || (rebirth entry >? rebirth previous)) with false; [reflexivity|].
    symmetry. apply orb_false_iff.
    split; rewrite Z.gtb_ltb; apply Z.ltb_ge; lia. }
  split; [exact Hpost|].
  intros Hranked Hlen.
  assert (Hsame : slice0 100 (sort by_rebirth_then_money leaderboard)
                  = leaderboard).
  { rewrite sort_of_ranked by exact Hranked. now apply slice0_all. }
  rewrite Hsame in Hpost. split; [exact Hpost|].
  now rewrite post_on_stored, Hpost.
Qed.

Lemma dropped_submission_rewrites_witness :
  build_entry 10000 (submission "alice" 500 0)
  = Next {| name := lit "alice"; money := 500; rebirth := 0;
            updatedAt := 10000 |} /\
  post_leaderboard 10000 (submission "alice" 500 0) [alice_at_0]
  = (OkTrue,
     Some (slice0 100 (sort by_rebirth_then_money [alice_at_0]))).
Proof.
  split; [reflexivity|].
  refine (proj1 (@dropped_submission_rewrites 10000
                   (submission "alice" 500 0)
                   {| name := lit "alice"; money := 500; rebirth := 0;
                      updatedAt := 10000 |}
                   [alice_at_0] 0%nat eq_refl eq_refl eq_refl _ _));
    unfold alice_at_0; simpl; lia.
Defined.

(** C8, as stated, fails: the handler reaches [saveLeaderboard] for a
    submission that is dropped, and the file is written again -- with the
    same content when the collection was ranked, with another when it was
    not (a file put in place by hand, here with alice in front of bob). *)
Lemma dropped_submission_is_written :
  let dropped := submission "alice" 500 0 in
  post_leaderboard 10000 dropped [alice_at_0] = (OkTrue, Some [alice_at_0]) /\
  snd (post_leaderboard 10000 dropped [alice_at_0]) <> None /\
  post_on_file 10000 dropped (stored [alice_at_0; bob_at_0])
  = Some (OkTrue, stored [bob_at_0; alice_at_0]) /\
  stored [bob_at_0; alice_at_0] <> stored [alice_at_0; bob_at_0].
Proof.
  repeat split; try reflexivity; discriminate.
Qed.

(* ===================================================================== *)
(** * Who a submission is *)
(* ===================================================================== *)



(* ===================================================================== *)
(** * The rebirth count of a submission *)
(* ===================================================================== *)





(* ===================================================================== *)
(** * Loading and saving *)
(* ===================================================================== *)

Lemma get_set_key (k : jstring) (v : value) (o : object) :
  get k (set_key k v o) = v.
Proof.
  induction o as [|[k' v'] r IH]; simpl.
  - now rewrite str_eqb_refl.
  - destruct (str_eqb k' k) eqn:E; simpl; now rewrite E.
Qed.

Lemma set_key_absent (k : jstring) (v : value) (o : object) :
  has_key k o = false -> set_key k v o = o ++ [(k, v)].
Proof.
  induction o as [|[k' v'] r IH]; simpl; [reflexivity|].
  destruct (str_eqb k' k); simpl; [discriminate|].
  intros H. now rewrite IH.
Qed.

Lemma get_absent (k : jstring) (o : object) :
  has_key k o = false -> get k o = VUndef.
Proof.
  induction o as [|[k' v'] r IH]; simpl; [reflexivity|].
  destruct (str_eqb k' k); simpl; [discriminate|exact IH].
Qed.

Lemma set_key_same (k : jstring) (o : object) :
  has_key k o = true -> set_key k (get k o) o = o.
Proof.
  induction o as [|[k' v'] r IH]; simpl; [discriminate|].
  destruct (str_eqb k' k); simpl; [reflexivity|].
  intros H. now rewrite IH.
Qed.

Lemma has_key_get (k : jstring) (o : object) :
  get k o <> VUndef -> has_key k o = true.
Proof.
  intros H. destruct (has_key k o) eqn:E; [reflexivity|].
  now rewrite get_absent in H.
Qed.

(** Every object the callback of [board.map] returns has a rebirth
    count. *)
Lemma with_rebirth_defined (item : value) (o : object) :
  with_rebirth item = Ok o -> get (lit "rebirth") o <> VUndef.
Proof.
  unfold with_rebirth. destruct (member item (lit "rebirth")) as [r|];
    [|discriminate].
  simpl. intros H. injection H as <-. rewrite get_set_key.
  destruct r; simpl; discriminate.
Qed.

Lemma map_result_In {A B} (f : A -> result B) (l : list A) (l' : list B) (y : B) :
  map_result f l = Ok l' -> In y l' -> exists x, In x l /\ f x = Ok y.
Proof.
  revert l'. induction l as [|x r IH]; simpl; intros l' H Hin.
  - injection H as <-. contradiction.
  - destruct (f x) as [y0|] eqn:Hx; [|discriminate]. simpl in H.
    destruct (map_result f r) as [ys|]; [|discriminate]. simpl in H.
    injection H as <-. destruct Hin as [<-|Hin].
    + exists x. auto.
    + destruct (IH ys eq_refl Hin) as (x' & Hx' & Hf). exists x'. auto.
Qed.

Lemma with_rebirth_object (o : object) :
  with_rebirth (VObj o) = Ok (loaded_object o).
Proof.
  unfold with_rebirth, loaded_object. simpl.
  destruct (get (lit "rebirth") o) eqn:E; simpl; try reflexivity;
    rewrite <- E; rewrite set_key_same; auto;
    apply has_key_get; rewrite E; discriminate.
Qed.

Lemma load_objects (items : list object) :
  loadLeaderboard (Some (Serialized (VArr (map VObj items))))
  = map loaded_object items.
Proof.
  unfold loadLeaderboard, loadLeaderboard_try. simpl.
  assert (H : map_result with_rebirth (map VObj items)
              = Ok (map loaded_object items)).
  { induction items as [|o r IH]; cbn [map map_result]; [reflexivity|].
    rewrite with_rebirth_object. cbn [bind]. now rewrite IH. }
  now rewrite H.
Qed.

(** C9.  [loadLeaderboard] answers with a collection whatever the file:
    the empty one when the file is missing, is no JSON, or is JSON but no
    array -- and whenever anything else throws while it loads.  Every
    object it returns has a rebirth count; an object of the file that
    has none gets [rebirth: 0], one that has keeps it. *)
Theorem load_fails_soft :
  loadLeaderboard None = [] /\
  loadLeaderboard (Some Malformed) = [] /\
  (forall v, (forall l, v <> VArr l) ->
             loadLeaderboard (Some (Serialized v)) = []) /\
  (forall f e, loadLeaderboard_try f = Throw e -> loadLeaderboard f = []) /\
  (forall f o, In o (loadLeaderboard f) -> get (lit "rebirth") o <> VUndef) /\
  (forall items : list object,
      loadLeaderboard (Some (Serialized (VArr (map VObj items))))
      = map loaded_object items) /\
  (forall o, has_key (lit "rebirth") o = false ->
             loaded_object o = o ++ [(lit "rebirth", VNum (Fin 0))]) /\
  (forall o, get (lit "rebirth") o <> VUndef -> loaded_object o = o).
Proof.
  split; [reflexivity|]. split; [reflexivity|].
  split.
  { intros v Hv. unfold loadLeaderboard, loadLeaderboard_try. simpl.
    destruct v; try reflexivity. now elim (Hv l). }
  split.
  { intros f e H. unfold loadLeaderboard. now rewrite H. }
  split.
  { intros f o. unfold loadLeaderboard, loadLeaderboard_try.
    destruct (readFileSync f) as [raw|]; simpl; [|contradiction].
    destruct (JSON_parse raw) as [parsed|]; simpl; [|contradiction].
    destruct (map_result with_rebirth _) as [board|] eqn:Hmap; simpl;
      [|contradiction].
    intros Hin. destruct (@map_result_In _ _ _ _ _ _ Hmap Hin) as (item & _ & Hitem).
    now apply (@with_rebirth_defined item). }
  split; [exact load_objects|].
  split.
  - intros o Ho. unfold loaded_object. rewrite (@get_absent _ _ Ho). simpl.
    now apply set_key_absent.
  - intros o Ho. unfold loaded_object.
    destruct (get (lit "rebirth") o); simpl; auto. now elim Ho.
Qed.

Lemma load_fails_soft_witness :
  loadLeaderboard (Some (Serialized (VObj []))) = [] /\
  loadLeaderboard_try (Some (Serialized (VArr [VNull]))) = Throw TypeError /\
  loadLeaderboard (Some (Serialized (VArr [VNull]))) = [] /\
  loaded_object [(lit "name", VStr (lit "old")); (lit "money", int 7)]
  = [(lit "name", VStr (lit "old")); (lit "money", int 7);
     (lit "rebirth", VNum (Fin 0))].
Proof.
  destruct load_fails_soft as (_ & _ & Hv & Hthrow & _ & _ & Habsent & _).
  split; [apply Hv; discriminate|]. split; [reflexivity|].
  split; [apply Hthrow with TypeError; reflexivity|].
  apply Habsent. reflexivity.
Defined.

(** C3 (as amended).  [saveLeaderboard] writes the serialised collection
    straight over [leaderboard.json]: there is no temporary file and no
    rename.  Once the write is complete the file loads as the collection
    that was saved; from the truncation until then it holds text that is
    no JSON document, which loads as the empty collection. *)
Theorem save_overwrites_in_place :
  forall l : list Entry,
    saveLeaderboard_states (map to_object l) = [Some Malformed; stored l] /\
    loadLeaderboard (stored l) = map to_object l /\
    of_objects (loadLeaderboard (stored l)) = Some l /\
    (forall during, In during (saveLeaderboard_states (map to_object l)) ->
                    loadLeaderboard during = []
                    \/ loadLeaderboard during = map to_object l).
Proof.
  intros l. split; [reflexivity|].
  split; [apply load_stored|].
  split; [rewrite load_stored; apply of_objects_entries|].
  intros during [<-|[<-|[]]].
  - now left.
  - right. apply load_stored.
Qed.

Lemma save_overwrites_in_place_witness :
  In (Some Malformed) (saveLeaderboard_states (map to_object [alice_at_0])) /\
  (loadLeaderboard (Some Malformed) = []
   \/ loadLeaderboard (Some Malformed) = map to_object [alice_at_0]).
Proof.
  split; [now left|].
  apply (proj2 (proj2 (proj2 (save_overwrites_in_place [alice_at_0])))).
  now left.
Defined.

(** C3, as stated, fails: while the new collection is being written the
    file is neither the snapshot that was there nor the new one, and a
    reader at that point gets an empty leaderboard. *)
Lemma save_is_not_atomic :
  let before := stored [alice_at_0] in
  let data := map to_object [bob_at_0; alice_at_0] in
  In (Some Malformed) (saveLeaderboard_states data) /\
  Some Malformed <> before /\
  Some Malformed <> saveLeaderboard data /\
  loadLeaderboard (Some Malformed) = [] /\
  loadLeaderboard before = [to_object alice_at_0] /\
  loadLeaderboard (saveLeaderboard data)
  = [to_object bob_at_0; to_object alice_at_0].
Proof.
  repeat split; try discriminate; try reflexivity. now left.
Qed.

(* ===================================================================== *)
(** * The top ten *)
(* ===================================================================== *)

(** C2 fails on the code.  After alice (money 10, one rebirth) and bob
    (money 500, no rebirth) have submitted, the persisted collection ranks
    alice first; the GET route sorts again, by money alone, and lists bob
    first. *)
Lemma get_leaderboard_ignores_rebirth :
  let persisted :=
    process [] [(0, submission "alice" 10 1); (0, submission "bob" 500 0)] in
  let alice := {| name := lit "alice"; money := 10; rebirth := 1;
                  updatedAt := 0 |} in
  let bob := {| name := lit "bob"; money := 500; rebirth := 0;
                updatedAt := 0 |} in
  persisted = [alice; bob] /\
  collection_ok persisted /\
  first_of_ranking 10 persisted = [alice; bob] /\
  get_leaderboard persisted = Listing [bob; alice] /\
  get_leaderboard persisted <> Listing (first_of_ranking 10 persisted).
Proof.
  split; [reflexivity|].
  split; [apply process_ok, empty_ok|].
  split; [reflexivity|]. split; [reflexivity|].
  discriminate.
Qed.

(** What the GET route does list: at most ten entries of the collection,
    in descending order of money. *)
Lemma get_leaderboard_by_money (leaderboard : list Entry) :
  exists top,
    get_leaderboard leaderboard = Listing top /\
    (List.length top <= 10)%nat /\
    (forall e, In e top -> In e leaderboard) /\
    Sorted (fun a b => money a >= money b) top.
Proof.
  eexists. split; [reflexivity|]. split; [apply slice0_length|]. split.
  - intros e He. apply slice0_In in He.
    eapply Permutation_in; [apply sort_perm|exact He].
  - apply slice0_Sorted.
    apply Sorted_iff with (R := before by_money).
    + intros a b. unfold before, by_money. lia.
    + apply sort_Sorted. intros a b. unfold before, by_money. lia.
Qed.

(* ===================================================================== *)
(** * A run of the server *)
(* ===================================================================== *)

(** alice submits 1000 at time 0 and is stored; submits 1000000 three
    seconds later and is told to wait; submits it again at ten seconds and
    replaces her entry; the listing then shows her with 1000000. *)
Example three_submissions :
  let first := post_leaderboard 0 (submission "alice" 1000 0) [] in
  let second := post_leaderboard 3000 (submission "alice" 1000000 0) [alice_at_0] in
  let third := post_leaderboard 10000 (submission "alice" 1000000 0) [alice_at_0] in
  let alice := {| name := lit "alice"; money := 1000000; rebirth := 0;
                  updatedAt := 10000 |} in
  first = (OkTrue, Some [alice_at_0]) /\
  second = (Rejected 429 TooFrequent, None) /\
  third = (OkTrue, Some [alice]) /\
  get_leaderboard [alice] = Listing [alice].
Proof. repeat split. Qed.

(* ===================================================================== *)
(** * More on the built-ins: [trim] *)
(* ===================================================================== *)

Lemma trimStart_head (s : jstring) (c : N) (r : jstring) :
  trimStart s = c :: r -> isWhiteSpace c = false.
Proof.
  induction s as [|x s IH]; simpl; [discriminate|].
  destruct (isWhiteSpace x) eqn:E; [exact IH|].
  intros H. injection H as <- _. exact E.
Qed.

Lemma trimStart_fixed (c : N) (r : jstring) :
  isWhiteSpace c = false -> trimStart (c :: r) = c :: r.
Proof. simpl. now intros ->. Qed.

(** [trimStart] takes white space off the front, nothing else. *)
Lemma trimStart_split (s : jstring) :
  exists ws, s = ws ++ trimStart s /\ forallb isWhiteSpace ws = true.
Proof.
  induction s as [|x s (ws & Hs & Hws)]; simpl.
  - now exists [].
  - destruct (isWhiteSpace x) eqn:E.
    + exists (x :: ws). simpl. rewrite E, Hws. split; [now f_equal|reflexivity].
    + now exists [].
Qed.

Lemma trimStart_app_ws (s ws : jstring) (c : N) (r : jstring) :
  trimStart s = c :: r -> trimStart (s ++ ws) = c :: r ++ ws.
Proof.
  induction s as [|x s IH]; simpl; [discriminate|].
  destruct (isWhiteSpace x); [exact IH|].
  intros H. injection H as <- <-. reflexivity.
Qed.

Lemma trimStart_all_ws (ws : jstring) :
  forallb isWhiteSpace ws = true -> trimStart ws = [].
Proof.
  induction ws as [|x ws IH]; simpl; [reflexivity|].
  destruct (isWhiteSpace x); simpl; [exact IH|discriminate].
Qed.

Lemma trimStart_ws_app (ws s : jstring) :
  forallb isWhiteSpace ws = true -> trimStart (ws ++ s) = trimStart s.
Proof.
  induction ws as [|x ws IH]; simpl; [reflexivity|].
  destruct (isWhiteSpace x); simpl; [exact IH|discriminate].
Qed.

(** [trimEnd] takes white space off the end, nothing else. *)
Lemma trimEnd_split (s : jstring) :
  exists ws, s = trimEnd s ++ ws /\ forallb isWhiteSpace ws = true.
Proof.
  unfold trimEnd. destruct (trimStart_split (rev s)) as (ws & Hs & Hws).
  exists (rev ws). split.
  - rewrite <- rev_app_distr, <- Hs. now rewrite rev_involutive.
  - rewrite forallb_forall in *. intros x Hx. apply Hws. now apply in_rev.
Qed.

(** What [trim] returns starts with a code unit that is no white space,
    when it is not empty, and the string trimmed starts with the same
    code unit once its leading white space is gone. *)
Lemma trim_head (s : jstring) :
  trim s = [] \/ exists c r, trim s = c :: r /\ isWhiteSpace c = false.
Proof.
  unfold trim. destruct (trimStart s) as [|c r] eqn:Hs; [now left|].
  right. pose proof (trimStart_head _ Hs) as Hc.
  destruct (trimEnd_split (c :: r)) as (ws & Hsplit & Hws).
  destruct (trimEnd (c :: r)) as [|c' r'] eqn:He.
  - simpl in Hsplit. subst ws. simpl in Hws. now rewrite Hc in Hws.
  - injection Hsplit as <- _. now exists c, r'.
Qed.

Lemma trimEnd_fixed (s : jstring) :
  (forall c r, rev s = c :: r -> isWhiteSpace c = false) -> trimEnd s = s.
Proof.
  intros H. unfold trimEnd. destruct (rev s) as [|c r] eqn:E.
  - simpl. now rewrite <- (rev_involutive s), E.
  - rewrite (@trimStart_fixed c r (H c r eq_refl)).
    now rewrite <- E, rev_involutive.
Qed.

Lemma trimEnd_trimEnd (s : jstring) : trimEnd (trimEnd s) = trimEnd s.
Proof.
  apply trimEnd_fixed. intros c r. unfold trimEnd. rewrite rev_involutive.
  apply trimStart_head.
Qed.

(** Trimming twice is trimming once: what [trim] returns has white space
    at neither end. *)
Lemma trim_idempotent (s : jstring) : trim (trim s) = trim s.
Proof.
  destruct (trim_head s) as [E|(c & r & E & Hc)].
  - now rewrite E.
  - unfold trim at 1. rewrite E, (@trimStart_fixed c r Hc), <- E.
    unfold trim. apply trimEnd_trimEnd.
Qed.

Lemma trim_nonempty_length (s : jstring) :
  trim s <> [] -> (1 <= List.length (slice0 40 (trim s)) <= 40)%nat.
Proof.
  intros H. unfold slice0. rewrite length_firstn.
  destruct (trim s); [now elim H|cbn [List.length]; lia].
Qed.

(** X1.  A name that fits into 40 code units once trimmed is stored as
    trimmed, and cleaning the stored name gives it back: whoever submits
    under the name as listed is the same submitter. *)
Theorem cleanName_of_stored_name :
  forall raw : jstring,
    (List.length (trim raw) <= 40)%nat ->
    cleanName raw = trim raw /\ cleanName (cleanName raw) = cleanName raw.
Proof.
  intros raw Hlen. unfold cleanName.
  rewrite (slice0_all _ Hlen), trim_idempotent.
  split; [reflexivity|apply slice0_all, Hlen].
Qed.

Lemma cleanName_of_stored_name_witness :
  (List.length (trim (lit "  alice ")) <= 40)%nat /\
  cleanName (lit "  alice ") = lit "alice" /\
  cleanName (cleanName (lit "  alice ")) = cleanName (lit "  alice ").
Proof.
  split; [vm_compute; lia|].
  apply (@cleanName_of_stored_name (lit "  alice ")). vm_compute. lia.
Defined.

(* ===================================================================== *)
(** * More on POST /api/leaderboard *)
(* ===================================================================== *)



(** The numbers of an entry that passed the checks. *)
Lemma accepted_money_range (safeMoney : number) :
  isFinite safeMoney = true -> lt safeMoney (Fin 0) = false ->
  gt safeMoney (Fin 5000000000) = false ->
  0 <= Math_floor safeMoney <= 5000000000.
Proof.
  destruct safeMoney as [| | |q]; simpl; try discriminate.
  intros _ Hlo Hhi. apply Qltb_ge in Hlo, Hhi. split.
  - change 0 with (Qfloor (inject_Z 0)). now apply Qfloor_resp_le.
  - change 5000000000 with (Qfloor (inject_Z 5000000000)).
    now apply Qfloor_resp_le.
Qed.

Lemma accepted_rebirth_range (n : number) :
  lt (or_zero n) (Fin 0) = false -> isInteger (or_zero n) = true ->
  0 <= integer_of (or_zero n).
Proof.
  destruct (or_zero n) as [| | |q]; simpl; try discriminate.
  intros Hlo _. apply Qltb_ge in Hlo.
  change 0 with (Qfloor (inject_Z 0)). now apply Qfloor_resp_le.
Qed.

Lemma build_entry_shape now b entry :
  build_entry now b = Next entry -> entry_shape entry.
Proof.
  intros H. apply build_entry_Next in H.
  destruct H as (s & safeMoney & n & _ & Ht & _ & Hf & Hlt & Hgt & _ & Hi & Hl
                 & ->).
  unfold entry_shape. simpl. split; [now apply trim_nonempty_length|].
  split.
  - destruct (trim_head s) as [E|(c & r & E & Hc)]; [contradiction|].
    exists c, (slice0 39 r). rewrite E. now split.
  - split; [now apply accepted_money_range|now apply accepted_rebirth_range].
Qed.

Lemma merged_In entry leaderboard l x :
  merged entry leaderboard l -> In x l -> x = entry \/ In x leaderboard.
Proof.
  intros [Hnone|i Hsome|i Hsome] Hin; auto.
  - apply in_app_or in Hin. destruct Hin as [Hin|[<-|[]]]; auto.
  - clear Hsome. revert i Hin.
    induction leaderboard as [|y r IH]; intros [|i]; simpl; auto.
    + intros [<-|H]; auto.
    + intros [<-|H]; auto. destruct (IH i H); auto.
Qed.

Lemma persisted_after_shape store rq :
  Forall entry_shape store -> Forall entry_shape (persisted_after store rq).
Proof.
  intros Hst. unfold persisted_after, post_leaderboard.
  destruct (build_entry (fst rq) (snd rq)) as [entry|r] eqn:Hb; simpl;
    [|exact Hst].
  destruct (merge_entry entry store) as [r [sorted|]] eqn:Hm; simpl;
    [|exact Hst].
  destruct (merge_entry_saved _ _ Hm) as (_ & l & Hl & ->).
  rewrite Forall_forall in *. intros x Hx.
  apply slice0_In in Hx.
  apply (Permutation_in _ (sort_perm by_rebirth_then_money l)) in Hx.
  destruct (@merged_In _ _ _ _ Hl Hx) as [->|Hin]; [|now apply Hst].
  now apply (@build_entry_shape (fst rq) (snd rq)).
Qed.

(** X3.  Every entry the server stores has a name of 1 to 40 code units
    that does not start with white space, money from 0 to 5 * 10^9 and a
    rebirth count from 0 up: requests, whatever they are, keep a
    collection of such entries one. *)
Theorem stored_entries_keep_shape :
  forall (store : list Entry) (requests : list (Z * body)),
    Forall entry_shape store ->
    Forall entry_shape (process store requests).
Proof.
  intros store requests. revert store.
  induction requests as [|rq rest IH]; intros store H; simpl; [exact H|].
  apply IH, persisted_after_shape, H.
Qed.

Lemma stored_entries_keep_shape_witness :
  Forall entry_shape [] /\
  Forall entry_shape
    (process [] [(0, submission "  alice " 1000 0);
                 (7000, submission "bob" 50 2)]).
Proof.
  split; [constructor|].
  apply (@stored_entries_keep_shape []
           [(0, submission "  alice " 1000 0); (7000, submission "bob" 50 2)]).
  constructor.
Defined.

Lemma named_other (m : jstring) (entry : Entry) (leaderboard l : list Entry) :
  merged entry leaderboard l -> m <> name entry ->
  named m l = named m leaderboard.
Proof.
  intros Hm Hne.
  assert (Hentry : str_eqb (name entry) m = false).
  { destruct (str_eqb (name entry) m) eqn:E; [|reflexivity].
    apply str_eqb_eq in E. now elim Hne. }
  destruct Hm as [Hnone|i Hsome|i Hsome]; [| |reflexivity].
  - unfold named. rewrite filter_app. simpl. rewrite Hentry. apply app_nil_r.
  - destruct (found_name _ _ Hsome) as (Hi & Hname & _).
    clear Hsome. revert i Hi Hname.
    induction leaderboard as [|y r IH]; intros [|i]; simpl; intros Hi Hname;
      try lia.
    + rewrite Hentry. now rewrite Hname, Hentry.
    + rewrite IH; [reflexivity|lia|exact Hname].
Qed.

(** X4.  A submission under a name the collection does not have yet,
    when the collection has distinct names and fewer than 100 entries, is
    accepted and stored as built: it is the one entry under its name, and
    the collection is the old one and the new entry, rearranged. *)
Theorem new_name_is_inserted :
  forall (now : Z) (b : body) (entry : Entry) (leaderboard : list Entry),
    build_entry now b = Next entry ->
    ~ In (name entry) (names leaderboard) ->
    NoDup (names leaderboard) ->
    (List.length leaderboard < 100)%nat ->
    exists sorted,
      post_leaderboard now b leaderboard = (OkTrue, Some sorted) /\
      named (name entry) sorted = [entry] /\
      Permutation sorted (entry :: leaderboard).
Proof.
  intros now b entry leaderboard Hb Hnew Hnd Hlen.
  assert (Hfind : findIndex (fun item => str_eqb (name item) (name entry))
                    leaderboard = None).
  { destruct (findIndex _ leaderboard) as [i|] eqn:E; [|reflexivity].
    elim Hnew. now apply (found_name _ _ E). }
  unfold post_leaderboard, merge_entry, sort_and_save. rewrite Hb, Hfind.
  eexists. split; [reflexivity|].
  assert (Hperm : Permutation
                    (slice0 100 (sort by_rebirth_then_money (leaderboard ++ [entry])))
                    (entry :: leaderboard)).
  { rewrite saved_perm by (rewrite length_app; simpl; lia).
    apply Permutation_sym, Permutation_cons_append. }
  split; [|exact Hperm].
  apply named_unique.
  - apply saved_names_NoDup. eapply merged_NoDup; [|exact Hnd].
    now apply merged_push.
  - eapply Permutation_in; [apply Permutation_sym, Hperm|now left].
Qed.

Lemma new_name_is_inserted_witness :
  build_entry 0 (submission "bob" 50 2) = Next bob_at_0 /\
  ~ In (name bob_at_0) (names [alice_at_0]) /\
  exists sorted,
    post_leaderboard 0 (submission "bob" 50 2) [alice_at_0]
    = (OkTrue, Some sorted) /\
    named (name bob_at_0) sorted = [bob_at_0] /\
    Permutation sorted [bob_at_0; alice_at_0].
Proof.
  assert (Hnew : ~ In (name bob_at_0) (names [alice_at_0])).
  { intros [H|[]]. discriminate H. }
  split; [reflexivity|]. split; [exact Hnew|].
  apply (@new_name_is_inserted 0 (submission "bob" 50 2) bob_at_0
           [alice_at_0] eq_refl Hnew).
  - repeat constructor. intros [].
  - simpl. lia.
Defined.

(** X5.  A submission touches no entry but the one under its own name:
    as long as nothing is cut off (the collection has fewer than 100
    entries, or has at most 100 and already holds the name), the entries
    under any other name are after the request what they were before. *)
Theorem other_names_untouched :
  forall (now : Z) (b : body) (entry : Entry) (leaderboard : list Entry)
         (m : jstring),
    build_entry now b = Next entry ->
    m <> name entry ->
    ((List.length leaderboard < 100)%nat
     \/ ((List.length leaderboard <= 100)%nat
         /\ In (name entry) (names leaderboard))) ->
    Permutation (named m (persisted_after leaderboard (now, b)))
                (named m leaderboard)
    /\ (NoDup (names leaderboard) ->
        named m (persisted_after leaderboard (now, b)) = named m leaderboard).
Proof.
  intros now b entry leaderboard m Hb Hne Hroom.
  assert (Hperm : Permutation (named m (persisted_after leaderboard (now, b)))
                              (named m leaderboard)).
  { unfold persisted_after, post_leaderboard. simpl. rewrite Hb.
    destruct (merge_entry entry leaderboard) as [r [sorted|]] eqn:Hm; simpl;
      [|reflexivity].
    destruct (merge_entry_saved _ _ Hm) as (_ & l & Hl & ->).
    rewrite <- (named_other Hl Hne). apply filter_perm, saved_perm.
    destruct (merged_names Hl) as [[Hn Hnew]|[Hn _]];
      apply (f_equal (@List.length _)) in Hn; unfold names in Hn;
      rewrite ?length_app, !length_map in Hn; simpl in Hn.
    - destruct Hroom as [H|[_ H]]; [lia|contradiction].
    - destruct Hroom as [H|[H _]]; lia. }
  split; [exact Hperm|]. intros Hnd.
  assert (Hshort : forall x y rest, named m leaderboard <> x :: y :: rest).
  { intros x y rest E.
    assert (Hx : In x (named m leaderboard)) by (rewrite E; now left).
    assert (Hy : In y (named m leaderboard)) by (rewrite E; right; now left).
    apply filter_In in Hx, Hy. destruct Hx as [Hx Hxm], Hy as [Hy Hym].
    apply str_eqb_eq in Hxm, Hym.
    rewrite <- Hxm in E. rewrite (@named_unique x leaderboard Hnd Hx) in E. discriminate. }
  destruct (named m leaderboard) as [|x [|y rest]] eqn:E.
  - now apply Permutation_nil, Permutation_sym.
  - now apply Permutation_length_1_inv, Permutation_sym.
  - now elim (Hshort x y rest).
Qed.

Lemma other_names_untouched_witness :
  build_entry 10000 (submission "alice" 2000 0)
  = Next {| name := lit "alice"; money := 2000; rebirth := 0;
            updatedAt := 10000 |} /\
  lit "bob" <> lit "alice" /\
  named (lit "bob")
        (persisted_after [bob_at_0; alice_at_0] (10000, submission "alice" 2000 0))
  = [bob_at_0].
Proof.
  split; [reflexivity|]. split; [discriminate|].
  refine (proj2 (@other_names_untouched 10000 (submission "alice" 2000 0)
                   {| name := lit "alice"; money := 2000; rebirth := 0;
                      updatedAt := 10000 |}
                   [bob_at_0; alice_at_0] (lit "bob") eq_refl _ _) _).
  - discriminate.
  - left. simpl. lia.
  - repeat constructor; simpl; intuition discriminate.
Defined.

Lemma insert_last {A} (compareFn : A -> A -> Z) (x e : A) (s : list A) :
  before compareFn x e ->
  insert compareFn x (s ++ [e]) = insert compareFn x s ++ [e].
Proof.
  intros Hxe. induction s as [|y s IH]; simpl.
  - unfold before in Hxe. now apply Z.leb_le in Hxe as ->.
  - destruct (compareFn x y <=? 0); [reflexivity|]. now rewrite IH.
Qed.

(** An element that may stand in front of none of the others stays last
    when it is pushed and the array sorted. *)
Lemma sort_last {A} (compareFn : A -> A -> Z) (e : A) (l : list A) :
  (forall x, In x l -> before compareFn x e) ->
  sort compareFn (l ++ [e]) = sort compareFn l ++ [e].
Proof.
  induction l as [|x l IH]; intros H; simpl; [reflexivity|].
  rewrite IH by (intros y Hy; apply H; now right).
  apply insert_last, H. now left.
Qed.

(** X6.  A full collection takes no entry that outranks none of its own:
    when the collection is ranked, holds 100 entries and none of them
    ranks below the new entry, a submission under a new name is answered
    [{ ok: true }] and the collection is written back as it was, without
    the new entry. *)
Theorem full_collection_drops_lowest :
  forall (now : Z) (b : body) (entry : Entry) (leaderboard : list Entry),
    build_entry now b = Next entry ->
    ~ In (name entry) (names leaderboard) ->
    List.length leaderboard = 100%nat ->
    ranked leaderboard ->
    (forall x, In x leaderboard -> ~ ranks_below x entry) ->
    post_leaderboard now b leaderboard = (OkTrue, Some leaderboard).
Proof.
  intros now b entry leaderboard Hb Hnew Hlen Hranked Hlow.
  assert (Hfind : findIndex (fun item => str_eqb (name item) (name entry))
                    leaderboard = None).
  { destruct (findIndex _ leaderboard) as [i|] eqn:E; [|reflexivity].
    elim Hnew. now apply (found_name _ _ E). }
  unfold post_leaderboard, merge_entry, sort_and_save. rewrite Hb, Hfind.
  rewrite sort_last
    by (intros x Hx; apply before_not_below, Hlow, Hx).
  rewrite (sort_of_ranked Hranked). unfold slice0.
  rewrite firstn_app, Hlen, Nat.sub_diag, firstn_all2 by lia.
  simpl. now rewrite app_nil_r.
Qed.

Lemma full_collection_drops_lowest_witness :
  build_entry 9000 (submission "zed" 5 0)
  = Next {| name := lit "zed"; money := 5; rebirth := 0; updatedAt := 9000 |} /\
  post_leaderboard 9000 (submission "zed" 5 0) full_collection
  = (OkTrue, Some full_collection).
Proof.
  split; [vm_compute; reflexivity|].
  assert (Hall : forallb
                   (fun x => negb (str_eqb (name x) (lit "zed"))
                             && (rebirth x =? 1))
                   full_collection = true) by (vm_compute; reflexivity).
  rewrite forallb_forall in Hall.
  apply (@full_collection_drops_lowest 9000 (submission "zed" 5 0)
           {| name := lit "zed"; money := 5; rebirth := 0; updatedAt := 9000 |}
           full_collection).
  - vm_compute. reflexivity.
  - intros Hin.
    destruct (proj1 (in_map_iff name _ _) Hin) as (x & Hx & Hx').
    specialize (Hall x Hx'). apply andb_true_iff in Hall.
    destruct Hall as [Hall _]. simpl in Hx.
    rewrite Hx, str_eqb_refl in Hall. discriminate Hall.
  - vm_compute. reflexivity.
  - destruct (@process_ok hundred_players [] empty_ok) as (_ & _ & H).
    exact H.
  - intros x Hx. specialize (Hall x Hx). apply andb_true_iff in Hall.
    destruct Hall as [_ Hall]. apply Z.eqb_eq in Hall.
    unfold ranks_below. cbn [rebirth money]. lia.
Defined.

(** ** The checks against the previous entry, in milliseconds *)


Lemma ceiling_exceeded (d delta : Z) :
  Qltb (150000 * Qmin (inject_Z d / 1000) 3600 * 1.5)%Q (inject_Z delta) = true
  <-> 225 * Z.min d 3600000 < delta.
Proof.
  rewrite Qltb_lt.
  destruct (Z.le_gt_cases d 3600000) as [Hle|Hgt].
  - rewrite Z.min_l by exact Hle.
    assert (E : (Qmin (inject_Z d / 1000) 3600 == inject_Z d / 1000)%Q).
    { apply Q.min_l. unfold Qle, Qdiv, Qmult, Qinv. cbn -[Z.mul]. lia. }
    rewrite E. unfold Qlt, Qdiv, Qmult, Qinv. cbn -[Z.mul]. lia.
  - rewrite Z.min_r by lia.
    assert (E : (Qmin (inject_Z d / 1000) 3600 == 3600)%Q).
    { apply Q.min_r. unfold Qle, Qdiv, Qmult, Qinv. cbn -[Z.mul]. lia. }
    rewrite E. unfold Qlt, Qmult. cbn -[Z.mul]. lia.
Qed.



(** X8.  No accepted submission raises the money stored under a name by
    more than 810,000,000 (one hour's ceiling, 1.5 * 150000 * 3600),
    however long ago the previous entry was written; a gain of at most
    10^8 is never what a submission is refused for. *)
Theorem accepted_gain_is_bounded :
  forall (now : Z) (b : body) (entry : Entry) (leaderboard : list Entry)
         (i : nat),
    build_entry now b = Next entry ->
    findIndex (fun item => str_eqb (name item) (name entry)) leaderboard
    = Some i ->
    let previous := nth i leaderboard entry in
    (fst (post_leaderboard now b leaderboard) = OkTrue ->
     money entry - money previous <= 810000000)
    /\
    (money entry - money previous <= 100000000 ->
     post_leaderboard now b leaderboard
     <> (Rejected 400 AbnormalIncrease, None)).
Proof.
  intros now b entry leaderboard i Hb Hfind previous.
  unfold post_leaderboard, merge_entry, sort_and_save. rewrite Hb, Hfind.
  cbv zeta. rewrite (build_entry_updatedAt _ _ Hb). fold previous.
  set (passed := now - updatedAt previous).
  set (gain := money entry - money previous).
  destruct (Qltb (inject_Z passed / 1000)%Q 5%Q) eqn:Hrate;
    [split; [discriminate|discriminate]|].
  destruct (Qltb _ (inject_Z gain) && (gain >? 100000000)) eqn:Hc.
  - apply andb_true_iff in Hc. destruct Hc as [_ Hbig].
    apply Z.gtb_lt in Hbig. split; [discriminate|lia].
  - split; [|discriminate]. intros _.
    destruct (Z.le_gt_cases gain 810000000) as [H|H]; [exact H|].
    assert (Hceil : 225 * Z.min passed 3600000 < gain) by lia.
    apply ceiling_exceeded in Hceil.
    assert (Hbig : (gain >? 100000000) = true) by (apply Z.gtb_lt; lia).
    rewrite Hceil, Hbig in Hc. discriminate.
Qed.

Lemma accepted_gain_is_bounded_witness :
  build_entry 10000 (submission "alice" 1000000 0)
  = Next {| name := lit "alice"; money := 1000000; rebirth := 0;
            updatedAt := 10000 |} /\
  fst (post_leaderboard 10000 (submission "alice" 1000000 0) [alice_at_0])
  = OkTrue /\
  1000000 - money alice_at_0 <= 810000000.
Proof.
  split; [reflexivity|]. split; [reflexivity|].
  apply (proj1 (@accepted_gain_is_bounded 10000
                  (submission "alice" 1000000 0)
                  {| name := lit "alice"; money := 1000000; rebirth := 0;
                     updatedAt := 10000 |}
                  [alice_at_0] 0%nat eq_refl eq_refl)).
  reflexivity.
Defined.

(* ===================================================================== *)
(** * More on GET /api/leaderboard *)
(* ===================================================================== *)

Lemma StronglySorted_app {A} (R : A -> A -> Prop) (l1 l2 : list A) :
  StronglySorted R (l1 ++ l2) ->
  forall x y, In x l1 -> In y l2 -> R x y.
Proof.
  induction l1 as [|a l1 IH]; simpl; intros H x y Hx Hy; [contradiction|].
  apply StronglySorted_inv in H. destruct H as [Hs Ha].
  destruct Hx as [<-|Hx].
  - rewrite Forall_forall in Ha. apply Ha, in_or_app. now right.
  - now apply IH.
Qed.

(** X9.  The listing is the top of the collection by money: it has ten
    entries, or all of them when there are fewer; with the entries left
    out it makes up the collection; and no entry left out has more money
    than a listed one.  The rebirth count plays no part. *)
Theorem listing_is_top_by_money :
  forall leaderboard : list Entry,
    exists top rest,
      get_leaderboard leaderboard = Listing top /\
      List.length top = Nat.min 10 (List.length leaderboard) /\
      Permutation (top ++ rest) leaderboard /\
      Sorted (fun a b => money a >= money b) top /\
      (forall x y, In x top -> In y rest -> money x >= money y).
Proof.
  intros leaderboard.
  exists (firstn 10 (sort by_money leaderboard)),
         (skipn 10 (sort by_money leaderboard)).
  assert (Hsorted : Sorted (before by_money) (sort by_money leaderboard)).
  { apply sort_Sorted. intros a b. unfold before, by_money. lia. }
  split; [reflexivity|]. split; [now rewrite length_firstn, sort_length|].
  split; [rewrite firstn_skipn; apply sort_perm|]. split.
  - apply (@slice0_Sorted _ _ 10).
    apply Sorted_iff with (R := before by_money); [|exact Hsorted].
    intros a b. unfold before, by_money. lia.
  - intros x y Hx Hy.
    assert (Hxy : before by_money x y).
    { apply StronglySorted_app
        with (l1 := firstn 10 (sort by_money leaderboard))
             (l2 := skipn 10 (sort by_money leaderboard)); auto.
      rewrite firstn_skipn. apply Sorted_StronglySorted; [|exact Hsorted].
      intros a b c. unfold before, by_money. lia. }
    unfold before, by_money in Hxy. lia.
Qed.

(* ===================================================================== *)
(** * What JSON.stringify keeps *)
(* ===================================================================== *)

Lemma stringified_object (o : list (jstring * value)) :
  stringified (VObj o) = VObj (stringified_props o).
Proof. reflexivity. Qed.

Lemma stringified_defined (v : value) : stringified v <> VUndef.
Proof.
  destruct v as [| |b|n|s|l|o]; simpl; try discriminate.
  destruct (isFinite n); discriminate.
Qed.

(** What was written once is written again as it is. *)
Lemma stringified_idempotent (v : value) :
  stringified (stringified v) = stringified v.
Proof.
  induction v as [| |b|n|s|l IH|o IH] using value_induction;
    try reflexivity.
  - simpl. destruct (isFinite n) eqn:E; simpl; [now rewrite E|reflexivity].
  - simpl. f_equal. induction IH as [|x l Hx _ IHl]; simpl; [reflexivity|].
    now rewrite Hx, IHl.
  - rewrite !stringified_object. f_equal.
    induction IH as [|[k x] r Hx _ IHr]; [reflexivity|].
    simpl in Hx.
    assert (Hstep : stringified_props ((k, x) :: r)
                    = match x with
                      | VUndef => stringified_props r
                      | _ => (k, stringified x) :: stringified_props r
                      end) by now destruct x.
    rewrite Hstep. destruct x eqn:Ex; try exact IHr;
      rewrite <- Ex in *;
      (assert (Hstep2 : forall rest,
                 stringified_props ((k, stringified x) :: rest)
                 = (k, stringified (stringified x)) :: stringified_props rest)
        by (intros rest; pose proof (stringified_defined x) as Hd;
            simpl; destruct (stringified x); try reflexivity; now elim Hd));
      now rewrite Hstep2, Hx, IHr.
Qed.

(* ===================================================================== *)
(** * The account routes *)
(* ===================================================================== *)

(** ** generatePlayerId *)

Lemma existsb_id_false (accounts : list Account) (candidate : jstring) :
  existsb (fun acc => str_eqb (id acc) candidate) accounts = false ->
  ~ In candidate (map id accounts).
Proof.
  intros H Hin. apply in_map_iff in Hin. destruct Hin as (a & Ha & Hin).
  assert (Ht : existsb (fun acc => str_eqb (id acc) candidate) accounts = true).
  { apply existsb_exists. exists a. split; [exact Hin|]. now apply str_eqb_eq. }
  congruence.
Qed.









(** ** Credentials *)

Lemma str_eqb_neq' (a b : jstring) : a <> b -> str_eqb a b = false.
Proof.
  intros H. destruct (str_eqb a b) eqn:E; [|reflexivity].
  apply str_eqb_eq in E. contradiction.
Qed.

(** The cleaned credentials have white space at neither end. *)
Lemma clean_credentials_trimmed (c : credentials) (u p : jstring) :
  clean_credentials c = inr (u, p) -> trimmed u /\ trimmed p.
Proof.
  unfold clean_credentials, trimmed.
  destruct (_ || _); [discriminate|].
  destruct (String_ (cred_username c)) as [su|]; [|discriminate].
  destruct (String_ (cred_password c)) as [sp|]; [|discriminate].
  intros H. injection H as <- <-. split; apply trim_idempotent.
Qed.

Lemma clean_credentials_inl (c : credentials) (r : reply) :
  clean_credentials c = inl r ->
  r = Refused 400 CredentialsRequired \/ exists e, r = Failed e.
Proof.
  unfold clean_credentials.
  destruct (_ || _); [intros H; injection H as <-; now left|].
  destruct (String_ (cred_username c)) as [su|e];
    [|intros H; injection H as <-; right; now exists e].
  destruct (String_ (cred_password c)) as [sp|e];
    [discriminate|intros H; injection H as <-; right; now exists e].
Qed.

Lemma find_username_none (accounts : list Account) (u : jstring) :
  existsb (fun acc => str_eqb (username acc) u) accounts = false ->
  find (fun acc => str_eqb (username acc) u) accounts = None.
Proof.
  induction accounts as [|a l IH]; simpl; [reflexivity|].
  destruct (str_eqb (username a) u); simpl; [discriminate|exact IH].
Qed.

Lemma find_kept (f : Account -> bool) (accounts : list Account) :
  (forall a, f (kept a) = f a) ->
  find f (map kept accounts) = option_map kept (find f accounts).
Proof.
  intros Hf. induction accounts as [|a l IH]; simpl; [reflexivity|].
  rewrite Hf. destruct (f a); [reflexivity|exact IH].
Qed.

Lemma find_app_none {A} (f : A -> bool) (l l' : list A) :
  find f l = None -> find f (l ++ l') = find f l'.
Proof.
  induction l as [|a l IH]; simpl; [reflexivity|].
  destruct (f a); [discriminate|exact IH].
Qed.

Lemma find_app_some {A} (f : A -> bool) (l l' : list A) (x : A) :
  find f l = Some x -> find f (l ++ l') = Some x.
Proof.
  induction l as [|a l IH]; simpl; [discriminate|].
  destruct (f a); [auto|exact IH].
Qed.

Lemma map_kept_on_disk (accounts : list Account) :
  Forall on_disk accounts -> map kept accounts = accounts.
Proof.
  induction 1 as [|a l Ha _ IH]; simpl; [reflexivity|].
  rewrite IH. f_equal. destruct a. unfold kept, on_disk in *. simpl in *.
  now rewrite Ha.
Qed.

Lemma kept_on_disk (accounts : list Account) :
  Forall on_disk (map kept accounts).
Proof.
  induction accounts as [|a l IH]; simpl; constructor; [|exact IH].
  unfold on_disk, kept. simpl. apply stringified_idempotent.
Qed.

(** What register returns when it adds an account. *)
Lemma register_Registered now draws c accounts newId u saved :
  register now draws c accounts = Some (Registered newId u, saved) ->
  exists p,
    clean_credentials c = inr (u, p) /\
    (1 <= List.length u <= 16)%nat /\
    existsb (fun acc => str_eqb (username acc) u) accounts = false /\
    generatePlayerId draws accounts = Some newId /\
    saved = Some (accounts ++ [{| id := newId; username := u; password := p;
                                  createdAt := now;
                                  gameData := initial_gameData;
                                  lastSaved := None |}]).
Proof.
  unfold register.
  destruct (clean_credentials c) as [r|[cu cp]] eqn:Hc.
  { intros H. injection H as -> _.
    destruct (clean_credentials_inl _ Hc) as [H|[e H]]; discriminate H. }
  destruct ((List.length cu <? 1)%nat || (16 <? List.length cu)%nat) eqn:Hlen;
    [discriminate|].
  apply orb_false_iff in Hlen. destruct Hlen as [H1 H16].
  apply Nat.ltb_ge in H1, H16.
  destruct (existsb _ accounts) eqn:E; [discriminate|].
  destruct (generatePlayerId draws accounts) as [i|]; [|discriminate].
  cbn [id username]. intros H. injection H as <- <- <-.
  exists cp. repeat split; auto.
Qed.

(** X12.  A registered account logs in: after a registration that
    succeeded, a login with credentials that clean to the same username
    and password (the same up to surrounding white space) is answered
    with the new account's id, its username and the initial game data. *)
Theorem registered_account_logs_in :
  forall (now : Z) (draws : list Q) (c c' : credentials)
         (accounts : list Account) (newId u : jstring)
         (saved : option (list Account)),
    register now draws c accounts = Some (Registered newId u, saved) ->
    clean_credentials c' = clean_credentials c ->
    login c' (accounts_after accounts saved)
    = LoggedIn newId u initial_gameData.
Proof.
  intros now draws c c' accounts newId u saved Hreg Hsame.
  destruct (register_Registered _ _ _ _ Hreg) as (p & Hc & _ & Hnew & _ & ->).
  unfold login. rewrite Hsame, Hc. simpl.
  rewrite find_kept by reflexivity.
  rewrite (@find_app_none _ _ _ _ (@find_username_none _ _ Hnew)).
  cbn [find username]. rewrite str_eqb_refl.
  cbn [option_map kept password id username gameData].
  rewrite str_eqb_refl. reflexivity.
Qed.

Lemma registered_account_logs_in_witness :
  register 5 [0.5%Q] (sign_in " ann " "pw") []
  = Some (Registered (lit "player5500") (lit "ann"),
          Some [ann]) /\
  clean_credentials (sign_in "ann" " pw ")
  = clean_credentials (sign_in " ann " "pw") /\
  login (sign_in "ann" " pw ")
        (accounts_after []
           (Some [ann]))
  = LoggedIn (lit "player5500") (lit "ann") initial_gameData.
Proof.
  split; [reflexivity|]. split; [reflexivity|].
  apply (@registered_account_logs_in 5 [0.5%Q] (sign_in " ann " "pw")
           (sign_in "ann" " pw ") [] (lit "player5500") (lit "ann")
           (Some [ann]) eq_refl eq_refl).
Defined.

(** X13.  A username is registered once: after a registration that
    succeeded, any registration whose username cleans to the same string
    is refused with 400 and writes nothing. *)
Theorem username_registers_once :
  forall (now now' : Z) (draws draws' : list Q) (c c' : credentials)
         (accounts : list Account) (newId u p' : jstring)
         (saved : option (list Account)),
    register now draws c accounts = Some (Registered newId u, saved) ->
    clean_credentials c' = inr (u, p') ->
    register now' draws' c' (accounts_after accounts saved)
    = Some (Refused 400 UsernameTaken, None).
Proof.
  intros now now' draws draws' c c' accounts newId u p' saved Hreg Hc'.
  destruct (register_Registered _ _ _ _ Hreg) as (p & _ & Hlen & _ & _ & ->).
  unfold register. rewrite Hc'.
  replace ((List.length u <? 1)%nat || (16 <? List.length u)%nat) with false
    by (symmetry; apply orb_false_iff; split; apply Nat.ltb_ge; lia).
  unfold accounts_after.
  assert (E : existsb (fun acc => str_eqb (username acc) u)
                (map kept (accounts ++ [{| id := newId; username := u;
                                           password := p; createdAt := now;
                                           gameData := initial_gameData;
                                           lastSaved := None |}])) = true).
  { apply existsb_exists. eexists. split.
    - apply in_map, in_or_app. right. now left.
    - simpl. apply str_eqb_refl. }
  now rewrite E.
Qed.

Lemma username_registers_once_witness :
  register 9 [0.75%Q] (sign_in "ann  " "other")
    (accounts_after []
       (Some [ann]))
  = Some (Refused 400 UsernameTaken, None).
Proof.
  apply (@username_registers_once 5 9 [0.5%Q] [0.75%Q] (sign_in " ann " "pw")
           (sign_in "ann  " "other") [] (lit "player5500") (lit "ann")
           (lit "other") (Some [ann]) eq_refl eq_refl).
Defined.

(** X14.  A login that succeeds names an account that is there: some
    account has the cleaned username and the cleaned password, and the
    answer carries that account's id and game data.  No other password
    logs in. *)
Theorem login_needs_the_stored_password :
  forall (c : credentials) (accounts : list Account) (i u : jstring)
         (g : value),
    login c accounts = LoggedIn i u g ->
    exists p account,
      clean_credentials c = inr (u, p) /\
      In account accounts /\
      username account = u /\ password account = p /\
      id account = i /\ gameData account = g.
Proof.
  intros c accounts i u g. unfold login.
  destruct (clean_credentials c) as [r|[cu cp]] eqn:Hc.
  - intros ->. destruct (clean_credentials_inl _ Hc) as [H|[e H]];
      discriminate H.
  - destruct (find _ accounts) as [account|] eqn:Hfind; [|discriminate].
    apply find_some in Hfind. destruct Hfind as [Hin Hu].
    apply str_eqb_eq in Hu.
    destruct (str_eqb (password account) cp) eqn:Hp; simpl; [|discriminate].
    apply str_eqb_eq in Hp. intros H. injection H as <- Hu' <-.
    exists cp, account. subst. repeat split; auto.
Qed.

Lemma login_needs_the_stored_password_witness :
  login (sign_in "ann" "pw")
        [ann]
  = LoggedIn (lit "player5500") (lit "ann") initial_gameData /\
  exists p account,
    clean_credentials (sign_in "ann" "pw") = inr (lit "ann", p) /\
    In account [ann] /\
    username account = lit "ann" /\ password account = p /\
    id account = lit "player5500" /\ gameData account = initial_gameData.
Proof.
  split; [reflexivity|].
  apply (@login_needs_the_stored_password (sign_in "ann" "pw") [ann]
           (lit "player5500") (lit "ann") initial_gameData eq_refl).
Defined.

(** X15.  Accounts that are added do not disturb a login: credentials
    that log in keep logging in, with the same answer, when further
    accounts follow in the array -- as after any registration. *)
Theorem login_survives_new_accounts :
  forall (c : credentials) (accounts more : list Account) (i u : jstring)
         (g : value),
    login c accounts = LoggedIn i u g ->
    login c (accounts ++ more) = LoggedIn i u g.
Proof.
  intros c accounts more i u g. unfold login.
  destruct (clean_credentials c) as [r|[cu cp]]; [auto|].
  destruct (find _ accounts) as [account|] eqn:Hfind; [|discriminate].
  now rewrite (@find_app_some _ _ _ more _ Hfind).
Qed.

Lemma login_survives_new_accounts_witness :
  login (sign_in "ann" "pw")
        ([ann]
         ++ [bea])
  = LoggedIn (lit "player5500") (lit "ann") initial_gameData.
Proof.
  apply (@login_survives_new_accounts (sign_in "ann" "pw") [ann] [bea]
           (lit "player5500") (lit "ann") initial_gameData eq_refl).
Defined.

(** ** Saving and loading game data *)

Lemma find_assign (f : Account -> bool) (accounts : list Account) (i : nat)
  (updated : Account) :
  findIndex f accounts = Some i -> f updated = true ->
  find f (assign i updated accounts) = Some updated.
Proof.
  revert i. induction accounts as [|a l IH]; simpl; intros i; [discriminate|].
  destruct (f a) eqn:Ea.
  - intros H Hu. injection H as <-. simpl. now rewrite Hu.
  - destruct (findIndex f l) as [j|]; [|discriminate].
    intros H Hu. injection H as <-. simpl. rewrite Ea. now apply IH.
Qed.

Lemma find_assign_other (f g : Account -> bool) (accounts : list Account)
  (i : nat) (updated : Account) :
  findIndex g accounts = Some i ->
  f updated = false -> (forall a, g a = true -> f a = false) ->
  find f (assign i updated accounts) = find f accounts.
Proof.
  revert i. induction accounts as [|a l IH]; simpl; intros i; [discriminate|].
  destruct (g a) eqn:Ea.
  - intros H Hu Hg. injection H as <-. simpl. now rewrite Hu, (Hg a Ea).
  - destruct (findIndex g l) as [j|]; [|discriminate].
    intros H Hu Hg. injection H as <-. simpl.
    destruct (f a); [reflexivity|]. now apply IH.
Qed.

(** X16.  Game data that is saved is what is loaded: after a save that
    succeeded, loading the same user's save answers with the data as
    [JSON.stringify] wrote it (or with [{}] if that is falsy); the save of
    any other user is what it was; and a save succeeds exactly when the
    data is truthy and the user exists. *)
Theorem saved_game_is_loaded :
  forall (now : Z) (user : jstring) (data : value) (accounts : list Account),
    Forall on_disk accounts ->
    (fst (post_save now user data accounts) = Saved
     <-> truthy data = true /\ In user (map username accounts))
    /\
    (fst (post_save now user data accounts) = Saved ->
     let after := accounts_after accounts (snd (post_save now user data accounts)) in
     get_save user after = SaveData (or_empty (stringified data))
     /\ forall other, other <> user ->
                      get_save other after = get_save other accounts).
Proof.
  intros now user data accounts Hdisk. unfold post_save.
  destruct (truthy data) eqn:Hdata; simpl.
  2:{ split; [split; [discriminate|intros [H _]; discriminate]|discriminate]. }
  destruct (findIndex _ accounts) as [i|] eqn:Hfind; simpl.
  - destruct (findIndex_Some _ _ no_account Hfind) as (Hi & Hu & Hin).
    remember (nth i accounts _) as account eqn:Hacc.
    apply str_eqb_eq in Hu.
    split.
    + split; [intros _|reflexivity]. split; [reflexivity|].
      rewrite <- Hu. now apply in_map.
    + intros _. split.
      * unfold get_save. rewrite find_kept by reflexivity.
        rewrite (@find_assign _ accounts i _ Hfind);
          [reflexivity|].
        simpl. rewrite Hu. apply str_eqb_refl.
      * intros other Hother. unfold get_save.
        rewrite find_kept by reflexivity.
        rewrite (@find_assign_other
                   (fun acc => str_eqb (username acc) other) _ accounts i
                   _ Hfind).
        -- rewrite <- (map_kept_on_disk Hdisk) at 2.
           now rewrite find_kept by reflexivity.
        -- simpl. rewrite Hu. apply str_eqb_neq'. congruence.
        -- intros a Ha. apply str_eqb_eq in Ha. rewrite Ha.
           apply str_eqb_neq'. congruence.
  - split; [|discriminate]. split; [discriminate|].
    intros [_ Hin]. exfalso.
    apply in_map_iff in Hin. destruct Hin as (a & Ha & Hin).
    pose proof (findIndex_None _ _ Hfind a Hin) as Hf. simpl in Hf.
    now rewrite Ha, str_eqb_refl in Hf.
Qed.

Lemma saved_game_is_loaded_witness :
  Forall on_disk [ann; bea] /\
  fst (post_save 20 (lit "bea") (VObj [(lit "money", num 7)]) [ann; bea])
  = Saved /\
  get_save (lit "bea")
    (accounts_after [ann; bea]
       (snd (post_save 20 (lit "bea") (VObj [(lit "money", num 7)]) [ann; bea])))
  = SaveData (VObj [(lit "money", num 7)]).
Proof.
  assert (Hdisk : Forall on_disk [ann; bea])
    by (constructor; [reflexivity|constructor; [reflexivity|constructor]]).
  split; [exact Hdisk|]. split; [reflexivity|].
  apply (proj2 (@saved_game_is_loaded 20 (lit "bea")
                  (VObj [(lit "money", num 7)]) [ann; bea] Hdisk)).
  reflexivity.
Defined.

(** ** What the routes keep true of the accounts *)

Lemma map_username_kept (l : list Account) :
  map username (map kept l) = map username l.
Proof. rewrite map_map. reflexivity. Qed.

Lemma map_id_kept (l : list Account) : map id (map kept l) = map id l.
Proof. rewrite map_map. reflexivity. Qed.

Lemma kept_ok (l : list Account) : accounts_ok l -> accounts_ok (map kept l).
Proof.
  intros (Hu & Hi & Hs). unfold accounts_ok.
  rewrite map_username_kept, map_id_kept. repeat split; auto.
  rewrite Forall_forall in *. intros a Ha.
  apply in_map_iff in Ha. destruct Ha as (a0 & <- & Ha0).
  exact (Hs a0 Ha0).
Qed.

Lemma register_saved now draws c accounts r data :
  register now draws c accounts = Some (r, Some data) ->
  exists newId u, r = Registered newId u.
Proof.
  unfold register.
  destruct (clean_credentials c) as [r0|[cu cp]]; [discriminate|].
  destruct (_ || _); [discriminate|].
  destruct (existsb _ accounts); [discriminate|].
  destruct (generatePlayerId draws accounts) as [i|]; [|discriminate].
  intros H. injection H as <- _. eauto.
Qed.

Lemma generatePlayerId_fresh draws accounts newId :
  generatePlayerId draws accounts = Some newId ->
  ~ In newId (map id accounts).
Proof.
  induction draws as [|r rest IH]; simpl; [discriminate|].
  destruct (existsb _ accounts) eqn:E; [exact IH|].
  intros H. injection H as <-. now apply existsb_id_false.
Qed.

Lemma existsb_username_false (accounts : list Account) (u : jstring) :
  existsb (fun acc => str_eqb (username acc) u) accounts = false ->
  ~ In u (map username accounts).
Proof.
  intros H Hin. apply in_map_iff in Hin. destruct Hin as (a & Ha & Hin).
  assert (Ht : existsb (fun acc => str_eqb (username acc) u) accounts = true).
  { apply existsb_exists. exists a. split; [exact Hin|]. now apply str_eqb_eq. }
  congruence.
Qed.

Lemma NoDup_snoc {A} (l : list A) (x : A) :
  NoDup l -> ~ In x l -> NoDup (l ++ [x]).
Proof.
  intros Hl Hx. apply NoDup_app; auto.
  - repeat constructor. intros [].
  - intros y Hy [<-|[]]. contradiction.
Qed.

(** X17.  The two routes that write the accounts keep them in order: no
    two accounts share a username, no two share an id, and every username
    has 1 to 16 code units with white space at neither end -- after any
    registration and after any save, whether it succeeded or not. *)
Theorem writers_keep_accounts_in_order :
  forall accounts : list Account,
    accounts_ok accounts ->
    (forall now draws c r saved,
        register now draws c accounts = Some (r, saved) ->
        accounts_ok (accounts_after accounts saved))
    /\
    (forall now user data,
        accounts_ok
          (accounts_after accounts (snd (post_save now user data accounts)))).
Proof.
  intros accounts Hok. split.
  - intros now draws c r [data|] Hreg; [|exact Hok].
    destruct (register_saved _ _ _ _ Hreg) as (newId & u & ->).
    destruct (register_Registered _ _ _ _ Hreg)
      as (p & Hc & Hlen & Hnew & Hid & Hsaved).
    injection Hsaved as ->. simpl. apply kept_ok.
    destruct Hok as (Hu & Hi & Hs). unfold accounts_ok.
    rewrite !map_app. simpl. repeat split.
    + apply NoDup_snoc; [exact Hu|now apply existsb_username_false].
    + apply NoDup_snoc; [exact Hi|now apply (@generatePlayerId_fresh draws)].
    + apply Forall_app. split; [exact Hs|]. constructor; [|constructor].
      destruct (clean_credentials_trimmed _ Hc) as [Htu Htp].
      unfold account_shape. simpl. auto.
  - intros now user data. unfold post_save.
    destruct (truthy data); simpl; [|exact Hok].
    destruct (findIndex _ accounts) as [i|] eqn:Hfind; simpl; [|exact Hok].
    apply kept_ok. destruct Hok as (Hu & Hi & Hs).
    destruct (findIndex_Some _ _ no_account Hfind) as (Hlt & _ & Hin).
    remember (nth i accounts no_account) as account eqn:Hacc.
    unfold accounts_ok.
    rewrite 2 assign_map with (d := no_account)
      by (auto; rewrite <- Hacc; reflexivity).
    repeat split; auto.
    rewrite Forall_forall in *. intros a Ha.
    assert (Hcases :
              a = {| id := id account; username := username account;
                     password := password account;
                     createdAt := createdAt account;
                     gameData := data; lastSaved := Some now |}
              \/ In a accounts).
    { clear - Ha. revert i Ha.
      induction accounts as [|y l IH]; intros [|i]; simpl; auto.
      - intros [<-|H]; auto.
      - intros [<-|H]; auto. destruct (IH i H) as [->|H']; auto. }
    destruct Hcases as [->|Ha']; [|now apply Hs].
    exact (Hs _ Hin).
Qed.

Lemma writers_keep_accounts_in_order_witness :
  accounts_ok [ann; bea] /\
  accounts_ok
    (accounts_after [ann; bea]
       (snd (post_save 20 (lit "bea") (VObj [(lit "money", num 7)])
               [ann; bea]))).
Proof.
  assert (Hok : accounts_ok [ann; bea]).
  { unfold accounts_ok, account_shape, trimmed. simpl. repeat split.
    - repeat constructor; simpl; intuition discriminate.
    - repeat constructor; simpl; intuition discriminate.
    - repeat constructor; simpl; lia. }
  split; [exact Hok|].
  apply (proj2 (@writers_keep_accounts_in_order [ann; bea] Hok)).
Defined.

(** ** accounts.json *)

Lemma stringified_account (a : Account) :
  gameData a <> VUndef ->
  stringified (VObj (account_object a)) = VObj (account_object (kept a)).
Proof.
  destruct a as [i u p c g [t|]]; unfold account_object, kept; simpl;
    intros Hg; destruct g; try reflexivity; now elim Hg.
Qed.

Lemma of_account_object (a : Account) :
  of_account_value (VObj (account_object a)) = Some a.
Proof. destruct a as [i u p c g [t|]]; reflexivity. Qed.

(** X18.  [accounts.json] gives back what was saved: loading the file
    [saveAccounts] wrote for a list of accounts yields those accounts,
    each with its game data as [JSON.stringify] writes it (a number that
    is not finite comes back as [null]); and [loadAccounts], like
    [loadLeaderboard], answers with the empty list when the file is
    missing, is no JSON or is no array. *)
Theorem accounts_file_round_trip :
  (forall l : list Account,
      Forall (fun a => gameData a <> VUndef) l ->
      of_account_values (loadAccounts (stored_accounts l))
      = Some (map kept l)) /\
  loadAccounts None = [] /\
  loadAccounts (Some Malformed) = [] /\
  (forall v, (forall l, v <> VArr l) -> loadAccounts (Some (Serialized v)) = []).
Proof.
  split.
  - intros l Hl. unfold stored_accounts, saveAccounts, JSON_stringify.
    assert (E : stringified (VArr (map VObj (map account_object l)))
                = VArr (map (fun a => VObj (account_object (kept a))) l)).
    { change (stringified (VArr (map VObj (map account_object l))))
        with (VArr (map stringified (map VObj (map account_object l)))).
      f_equal. induction Hl as [|a r Ha _ IH]; [reflexivity|].
      cbn [map]. rewrite IH. f_equal. now apply stringified_account. }
    rewrite E. unfold loadAccounts, loadAccounts_try.
    cbn [readFileSync JSON_parse bind try_catch].
    clear. induction l as [|a r IH]; [reflexivity|].
    cbn [map of_account_values]. now rewrite of_account_object, IH.
  - split; [reflexivity|]. split; [reflexivity|].
    intros v Hv. unfold loadAccounts, loadAccounts_try. simpl.
    destruct v; try reflexivity. now elim (Hv l).
Qed.

Lemma accounts_file_round_trip_witness :
  Forall (fun a => gameData a <> VUndef) [ann; bea] /\
  of_account_values (loadAccounts (stored_accounts [ann; bea]))
  = Some (map kept [ann; bea]).
Proof.
  assert (H : Forall (fun a => gameData a <> VUndef) [ann; bea])
    by (repeat constructor; discriminate).
  split; [exact H|].
  apply (proj1 accounts_file_round_trip [ann; bea] H).
Defined.

(** ** What the account routes write *)


